(** * Sortable: a drag-and-drop list reordering hook library

    Shallow embedding of [src/components/sortable/Sortable.js] (the second
    module of [src/src/components/sortable/index.js]): the reducer that holds
    the whole state of the library, the three pointer handlers, the effects
    of the [Sortable] provider and the commit effect of [useSortable].

    Conventions of the embedding.
    - A DOM element is known by its identity only ([===] in the source), so
      a node is a natural number.  What the source reads from the DOM
      ([getBoundingClientRect], [cloneNode]) is passed in explicitly.
    - A JavaScript number is a binary64 floating-point number: a primitive
      [float], with the rounding, the infinities, the signed zeros and the
      [NaN] of the source.
    - A property that may be [undefined] is an [option].
    - A style property holds what was last assigned to it, kept as the
      values interpolated into the assigned string.  What [cloneNode]
      copies from the original node into the duplicate is not
      represented. *)

From Stdlib Require Import ZArith Floats.
From stdpp Require Import base option list gmap.

(** ** Values read from the DOM *)

Definition Node := nat.
Definition Clone := nat.

Record Rect := {
  rect_x : float;
  rect_y : float;
  rect_width : float;
  rect_height : float
}.

(** [node.getBoundingClientRect()], read live. *)
Definition Layout := Node -> Rect.

(** ** Numbers *)

(** ToNumber of a property holding a number or [undefined]. *)
Definition to_num (v : option float) : float :=
  match v with
  | Some q => q
  | None => nan
  end.

(** [Object.is] on the numbers a dependency array holds: one [NaN] is the
    same value as another, and the two zeros differ. *)
Definition same_num (a b : float) : bool := Leibniz.eqb a b.

Definition same_opt {T : Type} (same : T -> T -> bool) (a b : option T) : bool :=
  match a, b with
  | Some x, Some y => same x y
  | None, None => true
  | _, _ => false
  end.

(** ** [Array.prototype] functions the source calls *)

Section Arrays.
Context {A : Type}.

(** [arr.some(p)] *)
Definition some (p : A -> bool) (arr : list A) : bool := existsb p arr.

(** [arr.findIndex(p)]: the first index whose element satisfies [p],
    [-1] when there is none. *)
Fixpoint findIndex_from (i : Z) (p : A -> bool) (arr : list A) : Z :=
  match arr with
  | [] => (-1)%Z
  | x :: rest => if p x then i else findIndex_from (i + 1)%Z p rest
  end.

Definition findIndex (p : A -> bool) (arr : list A) : Z :=
  findIndex_from 0%Z p arr.

(** [arr.push(x)] *)
Definition push (arr : list A) (x : A) : list A := arr ++ [x].

(** The start position of [splice]: [undefined] converts to [0], a
    negative index counts from the end, and the result is clamped to
    [0 .. len]. *)
Definition splice_start (len : nat) (start : option Z) : nat :=
  match start with
  | None => 0
  | Some z =>
      if (z <? 0)%Z then Z.to_nat (Z.max (Z.of_nat len + z) 0)
      else Z.to_nat (Z.min z (Z.of_nat len))
  end.

(** [arr.splice(start, deleteCount, ...items)]: the removed elements and
    the array after the call. *)
Definition splice (start : option Z) (deleteCount : Z) (items : list A)
    (arr : list A) : list A * list A :=
  let len := length arr in
  let s := splice_start len start in
  let dc := Z.to_nat (Z.min (Z.max deleteCount 0) (Z.of_nat (len - s))) in
  (take dc (drop s arr), take s arr ++ items ++ drop (s + dc) arr).
End Arrays.

(** ** The state of the library and its reducer *)

Record DraggedElement := {
  node : Node;
  rect : Rect
}.

Record State := {
  nodes : list Node;
  isDragging : option bool;
  initialY : option float;
  currentY : option float;
  draggedElement : option DraggedElement;
  draggedElementIndex : option Z;
  draggedElementNewIndex : option Z;
  duplicateNode : option Clone
}.

(** [const initialState = { nodes: [] }] *)
Definition initialState : State := {|
  nodes := [];
  isDragging := None;
  initialY := None;
  currentY := None;
  draggedElement := None;
  draggedElementIndex := None;
  draggedElementNewIndex := None;
  duplicateNode := None
|}.

Inductive Action :=
| ADD_NODE (payload : Node)
| DRAG_START (payload_initialY : float) (payload_node : Node)
| DRAG_END
| SET_CURRENT_Y (payload : float)
| SET_NEW_INDEX (payload : Z)
| UNKNOWN.

(** [reducer(state, action)].  The two DOM calls of the [DRAG_START] case
    take their results from [layout] (the rectangle of the pressed node) and
    [fresh] (the identity of the node [cloneNode(true)] creates). *)
Definition reducer (layout : Layout) (fresh : Clone) (state : State)
    (action : Action) : State :=
  match action with
  | ADD_NODE payload =>
      {| nodes := push (nodes state) payload;
         isDragging := isDragging state;
         initialY := initialY state;
         currentY := currentY state;
         draggedElement := draggedElement state;
         draggedElementIndex := draggedElementIndex state;
         draggedElementNewIndex := draggedElementNewIndex state;
         duplicateNode := duplicateNode state |}
  | DRAG_START y target =>
      {| nodes := nodes state;
         isDragging := Some true;
         initialY := Some y;
         currentY := currentY state;
         draggedElement := Some {| node := target; rect := layout target |};
         draggedElementIndex :=
           Some (findIndex (fun n => Nat.eqb n target) (nodes state));
         draggedElementNewIndex := draggedElementNewIndex state;
         duplicateNode := Some fresh |}
  | DRAG_END =>
      {| nodes := nodes state;
         isDragging := Some false;
         initialY := initialY state;
         currentY := currentY state;
         draggedElement := draggedElement state;
         draggedElementIndex := draggedElementIndex state;
         draggedElementNewIndex := draggedElementNewIndex state;
         duplicateNode := duplicateNode state |}
  | SET_CURRENT_Y payload =>
      {| nodes := nodes state;
         isDragging := isDragging state;
         initialY := initialY state;
         currentY := Some payload;
         draggedElement := draggedElement state;
         draggedElementIndex := draggedElementIndex state;
         draggedElementNewIndex := draggedElementNewIndex state;
         duplicateNode := duplicateNode state |}
  | SET_NEW_INDEX payload =>
      {| nodes := nodes state;
         isDragging := isDragging state;
         initialY := initialY state;
         currentY := currentY state;
         draggedElement := draggedElement state;
         draggedElementIndex := draggedElementIndex state;
         draggedElementNewIndex := Some payload;
         duplicateNode := duplicateNode state |}
  | UNKNOWN => state
  end.

(** What [Sortable] exposes to its children through the context. *)
Record Ctx := {
  ctx_isDragging : option bool;
  oldIndex : option Z;
  newIndex : option Z
}.

Definition ctx_of (state : State) : Ctx := {|
  ctx_isDragging := isDragging state;
  oldIndex := draggedElementIndex state;
  newIndex := draggedElementNewIndex state
|}.

(** ** [useSortable]: the commit at drag end *)

Section UseSortable.
Context {A : Type}.
(** The value [undefined] among the items of the caller. *)
Variable undefined : A.

(** [draft.splice(newIndex, 0, draft.splice(oldIndex, 1)[0])]: the inner
    call runs first and mutates the draft the outer call works on. *)
Definition move_item (from to : option Z) (draft : list A) : list A :=
  let (removed, draft1) := splice from 1 [] draft in
  let item := default undefined (removed !! 0) in
  snd (splice to 0 [item] draft1).

(** The body of the effect keyed on [isDragging]: [Some items'] when
    [setItems] is called with [items'], [None] when it is not. *)
Definition useSortable_effect (ctx : Ctx) (items : list A)
    : option (list A) :=
  if bool_decide (ctx_isDragging ctx = Some false)
     && negb (bool_decide (oldIndex ctx = newIndex ctx))
  then Some (move_item (oldIndex ctx) (newIndex ctx) items)
  else None.

(** The items after the effect has run. *)
Definition commit (ctx : Ctx) (items : list A) : list A :=
  default items (useSortable_effect ctx items).
End UseSortable.

(** ** The inline styles the effects write *)

Inductive Transform :=
| translate_up (height : float)     (* translate3d(0, -${height}px, 0) *)
| translate_down (height : float)   (* translate3d(0, ${height}px, 0) *)
| translate_zero.                   (* translate3d(0, 0, 0) *)

Inductive Visibility :=
| hidden
| visible.

(** A style property that was never written, or was reset to the empty
    string, is absent from its map.  [duplicateBox] holds the rectangle a
    duplicate was positioned at ([position: absolute] with [left], [top],
    [height] and [width]); [duplicateTransform] holds the value
    interpolated into its [translate3d(0, ${currentY}px, 0)]. *)
Record Dom := {
  transform : gmap Node Transform;
  webkitTransition : gset Node;
  visibility : gmap Node Visibility;
  body : list Clone;
  duplicateBox : gmap Clone Rect;
  duplicateTransform : gmap Clone (option float)
}.

Definition emptyDom : Dom := {|
  transform := ∅;
  webkitTransition := ∅;
  visibility := ∅;
  body := [];
  duplicateBox := ∅;
  duplicateTransform := ∅
|}.

(** [arr.forEach((x, index) => ...)], with the state the callback mutates
    passed along. *)
Fixpoint forEach_from {A T : Type} (i : nat) (f : T -> A -> nat -> T)
    (arr : list A) (acc : T) : T :=
  match arr with
  | [] => acc
  | x :: rest => forEach_from (S i) f rest (f acc x i)
  end.

Definition forEach {A T : Type} (f : T -> A -> nat -> T) (arr : list A)
    (acc : T) : T :=
  forEach_from 0 f arr acc.

(** ** The effect keyed on [state.currentY] *)

(** [index !== draggedElementIndex] *)
Definition index_differs (index : nat) (dragged : option Z) : bool :=
  negb (bool_decide (dragged = Some (Z.of_nat index))).

(** [draggedElementIndex < index]; [undefined] compares false. *)
Definition dragged_below (dragged : option Z) (index : nat) : bool :=
  match dragged with
  | Some d => (d <? Z.of_nat index)%Z
  | None => false
  end.

(** [draggedElementIndex > index] *)
Definition dragged_above (dragged : option Z) (index : nat) : bool :=
  match dragged with
  | Some d => (Z.of_nat index <? d)%Z
  | None => false
  end.

(** The three-way choice of the transform of a node that is not dragged. *)
Definition shift_of (offset : float) (draggedRect : Rect)
    (dragged : option Z) (index : nat) (r : Rect) : Transform :=
  if (rect_y r <? offset)%float && dragged_below dragged index then
    translate_up (rect_height draggedRect)
  else if (offset <? rect_y r + rect_height r)%float
          && dragged_above dragged index then
    translate_down (rect_height draggedRect)
  else
    translate_zero.

(** [offset > rect.y && offset < rect.y + rect.height] *)
Definition contains (offset : float) (r : Rect) : bool :=
  (rect_y r <? offset)%float && (offset <? rect_y r + rect_height r)%float.

(** The callback of [state.nodes.forEach]: it writes the transform of the
    node and queues a [SET_NEW_INDEX] dispatch. *)
Definition drag_node (layout : Layout) (offset : float) (draggedRect : Rect)
    (dragged : option Z) (acc : gmap Node Transform * list Action)
    (n : Node) (index : nat) : gmap Node Transform * list Action :=
  let r := layout n in
  let styles :=
    if index_differs index dragged
    then <[n := shift_of offset draggedRect dragged index r]> (fst acc)
    else fst acc in
  let queue :=
    if contains offset r
    then snd acc ++ [SET_NEW_INDEX (Z.of_nat index)]
    else snd acc in
  (styles, queue).

(** [state.currentY + draggedRect.y + draggedRect.height / 2] *)
Definition midpoint (y : option float) (draggedRect : Rect) : float :=
  (to_num y + rect_y draggedRect + rect_height draggedRect / 2)%float.

(** The effect: the document after it and the actions it dispatched, in
    order; [None] when reading [state.draggedElement.rect] throws.  It
    first moves the duplicate by [state.currentY], then visits the
    registered nodes. *)
Definition drag_effect (layout : Layout) (state : State) (dom : Dom)
    : option (Dom * list Action) :=
  match duplicateNode state with
  | None => Some (dom, [])
  | Some dup =>
      match draggedElement state with
      | None => None
      | Some el =>
          let draggedRect := rect el in
          let offset := midpoint (currentY state) draggedRect in
          let draggedElementIndex := draggedElementIndex state in
          let (styles, queue) :=
            forEach (drag_node layout offset draggedRect draggedElementIndex)
                    (nodes state) (transform dom, []) in
          Some ({| transform := styles;
                   webkitTransition := webkitTransition dom;
                   visibility := visibility dom;
                   body := body dom;
                   duplicateBox := duplicateBox dom;
                   duplicateTransform :=
                     <[dup := currentY state]> (duplicateTransform dom) |},
                queue)
      end
  end.

(** ** The effect keyed on [state.isDragging] *)

(** [document.body.appendChild(c)]: a node that is already a child moves to
    the end. *)
Definition appendChild (c : Clone) (children : list Clone) : list Clone :=
  filter (fun x => x ≠ c) children ++ [c].

(** [document.body.removeChild(c)]; it throws when [c] is not a child. *)
Definition removeChild (c : Clone) (children : list Clone)
    : option (list Clone) :=
  if bool_decide (c ∈ children)
  then Some (filter (fun x => x ≠ c) children)
  else None.

(** [if (state.isDragging)]: [undefined] and [false] are falsy. *)
Definition truthy (b : option bool) : bool :=
  match b with
  | Some true => true
  | _ => false
  end.

(** The effect: [None] when it throws.  When a drag starts, the duplicate
    is positioned over the rectangle the original node has now and appended
    to the body, the original node is hidden and every registered node
    gets the transition (the test
    [i !== state.draggedElement.draggedElement] reads a property that does
    not exist and is always true).  When a drag has ended, the duplicate is
    removed from the body, the original node is shown again and every
    registered node loses its transition and its transform. *)
Definition dragging_effect (layout : Layout) (state : State) (dom : Dom)
    : option Dom :=
  if truthy (isDragging state) then
    match draggedElement state, duplicateNode state with
    | Some el, Some dup =>
        let originalRect := layout (node el) in
        Some {| transform := transform dom;
                webkitTransition :=
                  webkitTransition dom ∪ list_to_set (nodes state);
                visibility := <[node el := hidden]> (visibility dom);
                body := appendChild dup (body dom);
                duplicateBox := <[dup := originalRect]> (duplicateBox dom);
                duplicateTransform := duplicateTransform dom |}
    | _, _ => None
    end
  else
    match draggedElement state with
    | None => Some dom
    | Some el =>
        match duplicateNode state with
        | None => None
        | Some dup =>
            match removeChild dup (body dom) with
            | None => None
            | Some children =>
                Some {| transform :=
                          foldr delete (transform dom) (nodes state);
                        webkitTransition :=
                          webkitTransition dom ∖ list_to_set (nodes state);
                        visibility :=
                          <[node el := visible]> (visibility dom);
                        body := children;
                        duplicateBox := duplicateBox dom;
                        duplicateTransform := duplicateTransform dom |}
            end
        end
    end.

(** ** The mounted component tree *)

(** [w_handlers] is the [state] the installed event handlers closed over:
    the effect that installs them is keyed on [state.nodes] and
    [state.isDragging] only. *)
Record World (A : Type) := {
  w_state : State;
  w_handlers : State;
  w_items : list A;
  w_dom : Dom;
  w_clones : nat
}.
Arguments w_state {A} _.
Arguments w_handlers {A} _.
Arguments w_items {A} _.
Arguments w_dom {A} _.
Arguments w_clones {A} _.

Inductive Event :=
| Mount (n : Node)                              (* addNode(ref.current) *)
| PressStart (target : Node) (clientY : float)  (* mousedown, touchstart *)
| PressMove (clientY : float)                   (* mousemove, touchmove *)
| PressEnd.                                     (* mouseup, touchend *)

(** [addNode(node)], called by the effect of [useSortableElement] when an
    item mounts. *)
Definition addNode (n : Node) : option Action := Some (ADD_NODE n).

(** [dragStart(e)]: the action it dispatches, if any. *)
Definition dragStart (state : State) (target : Node) (clientY : float)
    : option Action :=
  if some (fun n => Nat.eqb n target) (nodes state)
  then Some (DRAG_START clientY target)
  else None.

(** [dragEnd()] *)
Definition dragEnd : option Action := Some DRAG_END.

(** [drag(e)] *)
Definition drag (state : State) (clientY : float) : option Action :=
  if truthy (isDragging state)
  then Some (SET_CURRENT_Y (clientY - to_num (initialY state))%float)
  else None.

Section Render.
Context {A : Type}.
Variable undefined : A.

(** The comparisons of the dependency arrays between two renders. *)
Definition nodes_changed (prev next : State) : bool :=
  negb (bool_decide (nodes prev = nodes next)).

Definition isDragging_changed (prev next : State) : bool :=
  negb (bool_decide (isDragging prev = isDragging next)).

Definition currentY_changed (prev next : State) : bool :=
  negb (same_opt same_num (currentY prev) (currentY next)).

(** The effects that run after the state went from [prev] to [next], in
    the order React runs them: the effect of [useSortable] in the child
    first, then the three effects of [Sortable] in source order.  The
    dispatches of the last one only change [draggedElementNewIndex], which
    no dependency array names, so no effect runs again. *)
Definition run_effects (layout : Layout) (prev next : State)
    (w : World A) : option (World A) :=
  let items1 :=
    if isDragging_changed prev next
    then commit undefined (ctx_of next) (w_items w)
    else w_items w in
  let handlers1 :=
    if nodes_changed prev next || isDragging_changed prev next
    then next
    else w_handlers w in
  dom1 ← (if isDragging_changed prev next
          then dragging_effect layout next (w_dom w)
          else Some (w_dom w));
  '(dom2, queue) ← (if currentY_changed prev next
                    then drag_effect layout next dom1
                    else Some (dom1, []));
  Some {| w_state := foldl (reducer layout (w_clones w)) next queue;
          w_handlers := handlers1;
          w_items := items1;
          w_dom := dom2;
          w_clones := w_clones w |}.

(** [dispatch(action)] followed by the render it causes. *)
Definition dispatch (layout : Layout) (w : World A) (action : Action)
    : option (World A) :=
  let next := reducer layout (w_clones w) (w_state w) action in
  let clones :=
    match action with
    | DRAG_START _ _ => S (w_clones w)
    | _ => w_clones w
    end in
  run_effects layout (w_state w) next
    {| w_state := next;
       w_handlers := w_handlers w;
       w_items := w_items w;
       w_dom := w_dom w;
       w_clones := clones |}.

Definition handle (layout : Layout) (w : World A) (action : option Action)
    : option (World A) :=
  match action with
  | Some a => dispatch layout w a
  | None => Some w
  end.

(** One input event, delivered when the page is laid out as [layout]. *)
Definition step (layout : Layout) (w : World A) (e : Event)
    : option (World A) :=
  match e with
  | Mount n => handle layout w (addNode n)
  | PressStart target clientY =>
      handle layout w (dragStart (w_handlers w) target clientY)
  | PressMove clientY => handle layout w (drag (w_handlers w) clientY)
  | PressEnd => handle layout w dragEnd
  end.

Fixpoint run (w : World A) (events : list (Layout * Event))
    : option (World A) :=
  match events with
  | [] => Some w
  | (layout, e) :: rest =>
      match step layout w e with
      | Some w' => run w' rest
      | None => None
      end
  end.

(** The tree right after its first render, before any item has mounted. *)
Definition initialWorld (initialItems : list A) : World A := {|
  w_state := initialState;
  w_handlers := initialState;
  w_items := initialItems;
  w_dom := emptyDom;
  w_clones := 0
|}.

Definition reachable (initialItems : list A) (w : World A) : Prop :=
  exists events, run (initialWorld initialItems) events = Some w.
End Render.

(** ** Reading the tests of the source as propositions *)

(** [offset > q] *)
Definition above (offset q : float) : Prop := (q <? offset)%float = true.

(** [offset < q] *)
Definition below (offset q : float) : Prop := (offset <? q)%float = true.

(** The rectangle [r] vertically contains [offset]:
    [r.y < offset < r.y + r.height]. *)
Definition inside (offset : float) (r : Rect) : Prop :=
  above offset (rect_y r) /\ below offset (rect_y r + rect_height r)%float.

(** No drag session is open. *)
Definition idle (state : State) : Prop := truthy (isDragging state) = false.

(** Two states that differ in [isDragging] at most. *)
Definition same_session (s1 s2 : State) : Prop :=
  nodes s1 = nodes s2 /\
  initialY s1 = initialY s2 /\
  currentY s1 = currentY s2 /\
  draggedElement s1 = draggedElement s2 /\
  draggedElementIndex s1 = draggedElementIndex s2 /\
  draggedElementNewIndex s1 = draggedElementNewIndex s2 /\
  duplicateNode s1 = duplicateNode s2.

(** What holds of every tree the events can produce: the installed handlers
    see the current [nodes] and [isDragging], and a tree that never opened a
    session has no session data. *)
Record consistent {A : Type} (w : World A) : Prop := {
  handlers_nodes : nodes (w_handlers w) = nodes (w_state w);
  handlers_isDragging : isDragging (w_handlers w) = isDragging (w_state w);
  never_dragged :
    isDragging (w_state w) = None ->
    draggedElement (w_state w) = None /\
    draggedElementIndex (w_state w) = None /\
    draggedElementNewIndex (w_state w) = None /\
    duplicateNode (w_state w) = None
}.

(** The events a pointer that is already down can still produce. *)
Definition move_or_end (e : Event) : Prop :=
  match e with
  | PressMove _ | PressEnd => True
  | _ => False
  end.

(** ** A page to run the scenarios on *)

Inductive Letter := LA | LB | LC | LD | LE | Lundefined.

Definition ABCDE : list Letter := [LA; LB; LC; LD; LE].

(** The number [n] as a float. *)
Fixpoint float_of_nat (n : nat) : float :=
  match n with
  | 0 => 0%float
  | S m => (float_of_nat m + 1)%float
  end.

(** Rows of height 20 stacked from the top of the page: row [n] covers
    [20 n .. 20 n + 20]. *)
Definition rows : Layout := fun n =>
  {| rect_x := 0;
     rect_y := (20 * float_of_nat n)%float;
     rect_width := 100;
     rect_height := 20 |}.


Definition on_rows (events : list Event) : list (Layout * Event) :=
  (fun e => (rows, e)) <$> events.

(** The list of the demo after its five items have mounted. *)
Definition mounted : option (World Letter) :=
  run Lundefined (initialWorld ABCDE) (on_rows (Mount <$> [0; 1; 2; 3; 4])).

Definition session (events : list Event) : option (World Letter) :=
  w ← mounted; run Lundefined w (on_rows events).

(** The trees the scenarios start from: the mounted list at rest, and the
    list with a session open on its first item. *)
Definition mounted_world : World Letter :=
  default (initialWorld ABCDE) mounted.

Definition dragging_world : World Letter :=
  default (initialWorld ABCDE) (session [PressStart 0 10]).

(** The state while A is held 40 below the place it was pressed at, and
    the state after it was released there. *)
Definition held_A : State := {|
  nodes := [0; 1; 2; 3; 4];
  isDragging := Some true;
  initialY := Some 10%float;
  currentY := Some 40%float;
  draggedElement := Some {| node := 0; rect := rows 0 |};
  draggedElementIndex := Some 0%Z;
  draggedElementNewIndex := None;
  duplicateNode := Some 0
|}.

Definition released_A : State := {|
  nodes := [0; 1; 2; 3; 4];
  isDragging := Some false;
  initialY := Some 10%float;
  currentY := Some 40%float;
  draggedElement := Some {| node := 0; rect := rows 0 |};
  draggedElementIndex := Some 0%Z;
  draggedElementNewIndex := Some 2%Z;
  duplicateNode := Some 0
|}.

(** ** What the session data point at *)

(** The origin index is the first position of the dragged node in the
    registry. *)
Definition anchored (state : State) : Prop :=
  forall d, draggedElementIndex state = Some d ->
    exists (el : DraggedElement) (i : nat),
      draggedElement state = Some el /\ d = Z.of_nat i /\
      nodes state !! i = Some (node el) /\
      forall j, j < i -> nodes state !! j <> Some (node el).

(** The live target index is a position of the registry. *)
Definition targeted (state : State) : Prop :=
  forall k, draggedElementNewIndex state = Some k ->
    (0 <= k < Z.of_nat (length (nodes state)))%Z.

(** The registered nodes lie one below the other in registry order, without
    overlap: the bottom [rect.y + rect.height] of a rectangle, as the
    source computes it, is not above its top and not below the top of any
    later rectangle. *)
Definition stacked (layout : Layout) (registry : list Node) : Prop :=
  (forall i n, registry !! i = Some n ->
     (rect_y (layout n) <=? rect_y (layout n) + rect_height (layout n))%float
     = true) /\
  forall i j n m,
    i < j -> registry !! i = Some n -> registry !! j = Some m ->
    (rect_y (layout n) + rect_height (layout n) <=? rect_y (layout m))%float
    = true.

(** A session opened by one press at [y0] on the element [el], whose
    duplicate [dup] is attached to the document. *)
Record in_session {A : Type} (y0 : float) (dup : Clone) (el : DraggedElement)
    (w : World A) : Prop := {
  session_open : isDragging (w_state w) = Some true;
  session_handlers : isDragging (w_handlers w) = Some true;
  session_origin : initialY (w_handlers w) = Some y0;
  session_element : draggedElement (w_state w) = Some el;
  session_duplicate : duplicateNode (w_state w) = Some dup;
  session_attached : dup ∈ body (w_dom w)
}.

(** A run of pointer moves, each with the layout of the page at its time. *)
Definition moves (positions : list (Layout * float))
    : list (Layout * Event) :=
  (fun p => (fst p, PressMove (snd p))) <$> positions.

(** One whole gesture: a press, moves, a release. *)
Definition gesture (target : Node) (press : Layout * float)
    (positions : list (Layout * float)) (release : Layout)
    : list (Layout * Event) :=
  (fst press, PressStart target (snd press))
    :: moves positions ++ [(release, PressEnd)].

(** The demo list while A is held inside the rectangle of C, and after it
    was released there. *)
Definition moved_world : World Letter :=
  default (initialWorld ABCDE) (session [PressStart 0 10; PressMove 50]).

Definition released_world : World Letter :=
  default (initialWorld ABCDE)
    (session [PressStart 0 10; PressMove 50; PressEnd]).

(** * Properties *)

(** ** Arrays *)

Section ArrayFacts.
Context {A : Type}.
Implicit Types (arr : list A) (x : A).

Lemma splice_start_in_range (len : nat) (i : Z) :
  (0 <= i <= Z.of_nat len)%Z -> splice_start len (Some i) = Z.to_nat i.
Proof.
  intros Hi. unfold splice_start.
  destruct (Z.ltb_spec i 0); [lia|]. f_equal. lia.
Qed.

(** Removing one element at a valid index. *)
Lemma splice_remove_one arr (i : Z) x :
  (0 <= i)%Z -> arr !! Z.to_nat i = Some x ->
  splice (Some i) 1 [] arr = ([x], delete (Z.to_nat i) arr).
Proof.
  intros Hi Hx. pose proof (lookup_lt_Some _ _ _ Hx) as Hlt.
  unfold splice. rewrite splice_start_in_range by lia.
  replace (Z.to_nat (Z.min (Z.max 1 0) (Z.of_nat (length arr - Z.to_nat i))))
    with 1 by lia.
  f_equal.
  - rewrite (drop_S _ _ _ Hx). reflexivity.
  - rewrite delete_take_drop. simpl. do 2 f_equal. lia.
Qed.

(** Inserting one element at a position of the array or at its end. *)
Lemma splice_insert_one arr (i : Z) x :
  (0 <= i <= Z.of_nat (length arr))%Z ->
  splice (Some i) 0 [x] arr
  = ([], take (Z.to_nat i) arr ++ x :: drop (Z.to_nat i) arr).
Proof.
  intros Hi. unfold splice. rewrite splice_start_in_range by lia.
  replace (Z.to_nat (Z.min (Z.max 0 0) (Z.of_nat (length arr - Z.to_nat i))))
    with 0 by lia.
  rewrite Nat.add_0_r. reflexivity.
Qed.

(** [undefined] as a start position is position [0]. *)
Lemma splice_insert_undefined arr x :
  splice None 0 [x] arr = ([], x :: arr).
Proof.
  unfold splice. simpl.
  replace (Z.to_nat (Z.min (Z.max 0 0) (Z.of_nat (length arr - 0))))
    with 0 by lia.
  rewrite drop_0. reflexivity.
Qed.

Lemma insert_middle_length arr (t : nat) x :
  length (take t arr ++ x :: drop t arr) = S (length arr).
Proof.
  rewrite length_app. simpl. rewrite length_take, length_drop. lia.
Qed.

Lemma insert_middle_perm arr (t : nat) x :
  take t arr ++ x :: drop t arr ≡ₚ x :: arr.
Proof.
  rewrite <- Permutation_middle. rewrite take_drop. reflexivity.
Qed.

Lemma insert_middle_lookup arr (t : nat) x :
  t <= length arr -> (take t arr ++ x :: drop t arr) !! t = Some x.
Proof.
  intros Ht. apply list_lookup_middle.
  rewrite length_take_le; [done | lia].
Qed.

Lemma insert_middle_delete arr (t : nat) x :
  t <= length arr -> delete t (take t arr ++ x :: drop t arr) = arr.
Proof.
  intros Ht.
  assert (Hlen : length (take t arr) = t) by (apply length_take_le; lia).
  rewrite <- Hlen at 1. rewrite delete_middle. apply take_drop.
Qed.

Lemma findIndex_from_spec (p : A -> bool) arr (i : Z) :
  (exists k : nat, findIndex_from i p arr = (i + Z.of_nat k)%Z /\
     (exists x, arr !! k = Some x /\ p x = true) /\
     forall j y, j < k -> arr !! j = Some y -> p y = false)
  \/ (findIndex_from i p arr = (-1)%Z /\ forall y, y ∈ arr -> p y = false).
Proof.
  revert i. induction arr as [|a arr IH]; intros i; simpl.
  - right. split; [reflexivity|]. intros y Hy. inversion Hy.
  - destruct (p a) eqn:Hpa.
    + left. exists 0. split; [lia|]. split; [eauto|]. intros; lia.
    + destruct (IH (i + 1)%Z) as [(k & Hk & (x & Hx & Hpx) & Hmin)|[Hnone Hall]].
      * left. exists (S k). split; [lia|]. split; [eauto|].
        intros [|j] y Hj Hy; simpl in Hy; [congruence|].
        eapply Hmin; [|eassumption]. lia.
      * right. split; [assumption|]. intros y Hy.
        apply elem_of_cons in Hy as [->|Hy]; auto.
Qed.

Lemma some_true (p : A -> bool) arr :
  some p arr = true <-> exists x, x ∈ arr /\ p x = true.
Proof.
  unfold some. rewrite existsb_exists.
  split; intros (x & Hx & Hp); exists x; split; auto;
    by apply list_elem_of_In.
Qed.

Lemma forEach_from_app {T : Type} (f : T -> A -> nat -> T) arr1 arr2
    (i : nat) (acc : T) :
  forEach_from i f (arr1 ++ arr2) acc
  = forEach_from (i + length arr1) f arr2 (forEach_from i f arr1 acc).
Proof.
  revert i acc. induction arr1 as [|x arr1 IH]; intros i acc; simpl.
  - by rewrite Nat.add_0_r.
  - rewrite IH. f_equal. lia.
Qed.

Lemma forEach_snoc {T : Type} (f : T -> A -> nat -> T) arr x (acc : T) :
  forEach f (arr ++ [x]) acc = f (forEach f arr acc) x (length arr).
Proof. unfold forEach. by rewrite forEach_from_app. Qed.
End ArrayFacts.

(** The node a press lands on is found at its first position. *)
Lemma findIndex_registered (target : Node) (registry : list Node) :
  target ∈ registry ->
  exists i : nat,
    findIndex (fun n => Nat.eqb n target) registry = Z.of_nat i /\
    registry !! i = Some target /\
    forall j, j < i -> registry !! j <> Some target.
Proof.
  intros Hin. unfold findIndex.
  destruct (findIndex_from_spec (fun n => Nat.eqb n target) registry 0)
    as [(k & Hk & (x & Hx & Hpx) & Hmin)|[_ Hall]].
  - apply Nat.eqb_eq in Hpx as ->. exists k. split; [lia|]. split; [done|].
    intros j Hj Hjt. specialize (Hmin j target Hj Hjt).
    by rewrite Nat.eqb_refl in Hmin.
  - specialize (Hall target Hin). by rewrite Nat.eqb_refl in Hall.
Qed.

Lemma some_registered (target : Node) (registry : list Node) :
  some (fun n => Nat.eqb n target) registry = true <-> target ∈ registry.
Proof.
  rewrite some_true. split.
  - intros (x & Hx & Hp). by apply Nat.eqb_eq in Hp as <-.
  - intros H. exists target. split; [done|]. apply Nat.eqb_refl.
Qed.

(** ** The commit of [useSortable] *)

Section Commit.
Context {A : Type}.
Variable undefined : A.
Implicit Types (items : list A) (state : State).

(** A move between two valid positions takes the item out and puts it back
    in at the target position of the shortened array. *)
Lemma move_item_valid items (from to : Z) x :
  (0 <= from)%Z -> items !! Z.to_nat from = Some x ->
  (0 <= to < Z.of_nat (length items))%Z ->
  move_item undefined (Some from) (Some to) items
  = take (Z.to_nat to) (delete (Z.to_nat from) items)
    ++ x :: drop (Z.to_nat to) (delete (Z.to_nat from) items).
Proof.
  intros Hfrom Hx Hto. unfold move_item.
  rewrite (splice_remove_one _ _ x) by done.
  change (default undefined ([x] !! 0)) with x.
  rewrite splice_insert_one; [done|].
  rewrite length_delete by eauto. lia.
Qed.

(** C1: for every sequence and every pair of valid indices [from <> to], the
    commit at drag end yields a sequence of the same length and the same
    multiset of items, in which the item that was at [from] is at [to] and
    the other items are in their original order: taking the moved item out
    of the result gives what taking it out of the original gives. *)
Theorem commit_moves_one_item state items (from to : Z) :
  isDragging state = Some false ->
  draggedElementIndex state = Some from ->
  draggedElementNewIndex state = Some to ->
  (0 <= from < Z.of_nat (length items))%Z ->
  (0 <= to < Z.of_nat (length items))%Z ->
  from <> to ->
  exists items' x,
    useSortable_effect undefined (ctx_of state) items = Some items' /\
    length items' = length items /\
    items' ≡ₚ items /\
    items !! Z.to_nat from = Some x /\
    items' !! Z.to_nat to = Some x /\
    delete (Z.to_nat to) items' = delete (Z.to_nat from) items.
Proof.
  intros Hend Hold Hnew Hfrom Hto Hne.
  destruct (lookup_lt_is_Some_2 items (Z.to_nat from)) as [x Hx]; [lia|].
  exists (move_item undefined (Some from) (Some to) items), x.
  assert (Hlen : length (delete (Z.to_nat from) items) = length items - 1)
    by (apply length_delete; eauto).
  split.
  - unfold useSortable_effect, ctx_of. simpl. rewrite Hend, Hold, Hnew.
    rewrite bool_decide_eq_true_2 by done.
    rewrite bool_decide_eq_false_2 by congruence. done.
  - rewrite (move_item_valid _ _ _ x) by (done || lia).
    repeat split.
    + rewrite insert_middle_length. lia.
    + rewrite insert_middle_perm. symmetry. by apply delete_Permutation.
    + done.
    + apply insert_middle_lookup. lia.
    + apply insert_middle_delete. lia.
Qed.

(** With equal indices the effect does not call [setItems]. *)
Lemma commit_equal_indices (ctx : Ctx) items :
  oldIndex ctx = newIndex ctx -> commit undefined ctx items = items.
Proof.
  intros H. unfold commit, useSortable_effect.
  rewrite (bool_decide_eq_true_2 _ H). by rewrite andb_false_r.
Qed.

(** C3: when a session has ended, [setItems] is called if and only if the
    origin index differs from the live target index.  When it is called
    with two positions of the array, the new array is the old one with the
    item of the origin position taken out and put back in at the target
    position; when the two indices are equal [setItems] is not called and
    the items stay as they are. *)
Theorem commit_iff_indices_differ state items :
  isDragging state = Some false ->
  (is_Some (useSortable_effect undefined (ctx_of state) items)
   <-> draggedElementIndex state <> draggedElementNewIndex state) /\
  (forall (from to : Z) (x : A),
     draggedElementIndex state = Some from ->
     draggedElementNewIndex state = Some to ->
     from <> to ->
     (0 <= from)%Z -> items !! Z.to_nat from = Some x ->
     (0 <= to < Z.of_nat (length items))%Z ->
     useSortable_effect undefined (ctx_of state) items
     = Some (take (Z.to_nat to) (delete (Z.to_nat from) items)
             ++ x :: drop (Z.to_nat to) (delete (Z.to_nat from) items))) /\
  (draggedElementIndex state = draggedElementNewIndex state ->
   useSortable_effect undefined (ctx_of state) items = None /\
   commit undefined (ctx_of state) items = items).
Proof.
  intros Hend. unfold commit, useSortable_effect, ctx_of. simpl.
  rewrite Hend, bool_decide_eq_true_2 by done. simpl.
  split; [|split].
  - destruct (decide (draggedElementIndex state
                      = draggedElementNewIndex state)) as [Heq|Hne].
    + rewrite bool_decide_eq_true_2 by done. simpl.
      split; [intros [? ?]; done | done].
    + rewrite bool_decide_eq_false_2 by done. simpl. split; [done | eauto].
  - intros from to x Hold Hnew Hne Hfrom Hx Hto. rewrite Hold, Hnew.
    rewrite bool_decide_eq_false_2 by congruence. simpl.
    by rewrite (move_item_valid _ _ _ x).
  - intros Heq. by rewrite bool_decide_eq_true_2.
Qed.

(** While a session is open, and before the first one, the effect does not
    touch the items. *)
Lemma commit_not_ended (ctx : Ctx) items :
  ctx_isDragging ctx <> Some false -> commit undefined ctx items = items.
Proof.
  intros H. unfold commit, useSortable_effect.
  by rewrite bool_decide_eq_false_2.
Qed.
End Commit.

(** C2: from [A; B; C; D; E], committing a drag of the item at index 0 with
    live target index 2 gives [B; C; A; D; E], and committing a drag of the
    item at index 4 with live target index 1 gives [A; E; B; C; D]. *)
Theorem commit_scenarios :
  commit Lundefined
    {| ctx_isDragging := Some false; oldIndex := Some 0%Z;
       newIndex := Some 2%Z |} ABCDE
  = [LB; LC; LA; LD; LE] /\
  commit Lundefined
    {| ctx_isDragging := Some false; oldIndex := Some 4%Z;
       newIndex := Some 1%Z |} ABCDE
  = [LA; LE; LB; LC; LD].
Proof. split; vm_compute; reflexivity. Qed.

(** The same two scenarios from the pointer: A is pressed at its middle and
    dragged 40 down, so that the midpoint is inside the rectangle of C; E is
    pressed and dragged 60 up, into the rectangle of B. *)
Example drag_A_onto_C :
  w_items <$> session [PressStart 0 10; PressMove 50; PressEnd]
  = Some [LB; LC; LA; LD; LE].
Proof. vm_compute. reflexivity. Qed.

Example drag_E_onto_B :
  w_items <$> session [PressStart 4 90; PressMove 30; PressEnd]
  = Some [LA; LE; LB; LC; LD].
Proof. vm_compute. reflexivity. Qed.

(** ** The reducer *)

(** C10: [DRAG_END] changes [isDragging] only, so the context the commit
    reads after release carries the origin index and the live target index
    the session recorded. *)
Theorem drag_end_frame (layout : Layout) (fresh : Clone) (state : State) :
  let state' := reducer layout fresh state DRAG_END in
  isDragging state' = Some false /\
  nodes state' = nodes state /\
  initialY state' = initialY state /\
  currentY state' = currentY state /\
  draggedElement state' = draggedElement state /\
  draggedElementIndex state' = draggedElementIndex state /\
  draggedElementNewIndex state' = draggedElementNewIndex state /\
  duplicateNode state' = duplicateNode state /\
  ctx_of state' =
    {| ctx_isDragging := Some false;
       oldIndex := draggedElementIndex state;
       newIndex := draggedElementNewIndex state |}.
Proof. simpl. repeat split. Qed.

(** [ADD_NODE] appends to the registry and changes nothing else. *)
Lemma add_node_frame (layout : Layout) (fresh : Clone) (state : State)
    (n : Node) :
  let state' := reducer layout fresh state (ADD_NODE n) in
  nodes state' = nodes state ++ [n] /\
  isDragging state' = isDragging state /\
  same_session
    {| nodes := nodes state ++ [n]; isDragging := isDragging state;
       initialY := initialY state; currentY := currentY state;
       draggedElement := draggedElement state;
       draggedElementIndex := draggedElementIndex state;
       draggedElementNewIndex := draggedElementNewIndex state;
       duplicateNode := duplicateNode state |} state'.
Proof. simpl. unfold same_session. simpl. repeat split. Qed.

Lemma add_nodes_registry (layout : Layout) (fresh : Clone) (state : State)
    (ns : list Node) :
  nodes (foldl (reducer layout fresh) state (ADD_NODE <$> ns))
  = nodes state ++ ns.
Proof.
  revert state. induction ns as [|n ns IH]; intros state; simpl.
  - by rewrite app_nil_r.
  - rewrite IH. simpl. unfold push. by rewrite <- app_assoc.
Qed.

(** ** The effect keyed on [state.currentY] *)

Lemma contains_inside (offset : float) (r : Rect) :
  contains offset r = true <-> inside offset r.
Proof. unfold contains, inside, above, below. apply andb_true_iff. Qed.

Lemma not_contains_inside (offset : float) (r : Rect) :
  contains offset r = false <-> ~ inside offset r.
Proof. by rewrite <- contains_inside, not_true_iff_false. Qed.


Section DragEffect.
Variable layout : Layout.
Variables (offset : float) (draggedRect : Rect) (dragged : option Z).

Let visit := drag_node layout offset draggedRect dragged.

(** The loop can be stopped after any index and resumed. *)
Lemma forEach_resume (registry : list Node) (i : nat)
    (acc : gmap Node Transform * list Action) :
  forEach visit registry acc
  = forEach_from i visit (drop i registry)
      (forEach visit (take i registry) acc).
Proof.
  unfold forEach.
  rewrite <- (take_drop i registry) at 1. rewrite forEach_from_app. simpl.
  destruct (decide (i <= length registry)) as [Hle|Hgt].
  - by rewrite length_take_le.
  - rewrite drop_ge by lia. done.
Qed.

(** Right after index [i] was visited, the node there carries the transform
    chosen for it. *)
Lemma forEach_assigns (registry : list Node) (i : nat) (n : Node)
    (acc : gmap Node Transform * list Action) :
  registry !! i = Some n ->
  dragged <> Some (Z.of_nat i) ->
  fst (forEach visit (take (S i) registry) acc) !! n
  = Some (shift_of offset draggedRect dragged i (layout n)).
Proof.
  intros Hn Hne. rewrite (take_S_r _ _ _ Hn), forEach_snoc.
  rewrite length_take_le by (apply lookup_lt_Some in Hn; lia).
  unfold visit at 1, drag_node. simpl.
  unfold index_differs. rewrite bool_decide_eq_false_2 by done. simpl.
  apply lookup_insert_eq.
Qed.

(** A later visit does not touch the transform of another node. *)
Lemma forEach_from_other (registry : list Node) (i : nat) (n : Node)
    (acc : gmap Node Transform * list Action) :
  n ∉ registry ->
  fst (forEach_from i visit registry acc) !! n = fst acc !! n.
Proof.
  revert i acc. induction registry as [|m registry IH]; intros i acc Hn.
  - done.
  - simpl. apply not_elem_of_cons in Hn as [Hnm Hn]. rewrite IH by done.
    unfold visit, drag_node. simpl.
    destruct (index_differs i dragged); [|done].
    by apply lookup_insert_ne.
Qed.

(** The loop queues [SET_NEW_INDEX] actions only. *)
Lemma forEach_queue (registry : list Node) (i : nat)
    (acc : gmap Node Transform * list Action) :
  Forall (fun a => exists k, a = SET_NEW_INDEX k) (snd acc) ->
  Forall (fun a => exists k, a = SET_NEW_INDEX k)
    (snd (forEach_from i visit registry acc)).
Proof.
  revert i acc. induction registry as [|m registry IH]; intros i acc Hacc.
  - done.
  - simpl. apply IH. unfold visit, drag_node. simpl.
    destruct (contains offset (layout m)); [|done].
    apply Forall_app. split; [done|]. apply Forall_singleton. eauto.
Qed.

(** The live target index once the queued actions are reduced: the last
    index whose rectangle contains the midpoint, or the previous value when
    no rectangle does. *)
Lemma forEach_live_target (fresh : Clone) (state : State)
    (registry : list Node) (styles : gmap Node Transform) :
  let queue := snd (forEach visit registry (styles, [])) in
  let live :=
    draggedElementNewIndex (foldl (reducer layout fresh) state queue) in
  (exists (i : nat) (n : Node),
      registry !! i = Some n /\ inside offset (layout n) /\
      (forall j m, i < j -> registry !! j = Some m ->
                   ~ inside offset (layout m)) /\
      live = Some (Z.of_nat i))
  \/ ((forall j m, registry !! j = Some m -> ~ inside offset (layout m)) /\
      live = draggedElementNewIndex state).
Proof.
  simpl. induction registry as [|m registry IH] using rev_ind.
  - right. split; [|done]. intros j m Hj. done.
  - rewrite forEach_snoc. unfold visit at 1, drag_node. simpl.
    destruct (contains offset (layout m)) eqn:Hm.
    + left. exists (length registry), m.
      split; [by apply list_lookup_middle|].
      split; [by apply contains_inside|]. split.
      * intros j m' Hj Hm'. apply lookup_lt_Some in Hm'.
        rewrite length_app in Hm'. simpl in Hm'. lia.
      * by rewrite foldl_snoc.
    + apply not_contains_inside in Hm.
      destruct IH as [(i & n & Hn & Hin & Hlast & Hlive)|[Hnone Hlive]].
      * left. exists i, n. split; [by apply lookup_app_l_Some|].
        split; [done|]. split; [|done].
        intros j m' Hj Hm'. apply lookup_app_Some in Hm' as [Hm'|[Hge Hm']].
        -- by eapply Hlast.
        -- apply list_lookup_singleton_Some in Hm' as [_ <-]. done.
      * right. split; [|done].
        intros j m' Hm'. apply lookup_app_Some in Hm' as [Hm'|[Hge Hm']].
        -- by eapply Hnone.
        -- apply list_lookup_singleton_Some in Hm' as [_ <-]. done.
Qed.
End DragEffect.

(** The effect runs to completion once a session has been opened. *)
Lemma drag_effect_runs (layout : Layout) (state : State) (dom : Dom)
    (dup : Clone) (el : DraggedElement) :
  duplicateNode state = Some dup ->
  draggedElement state = Some el ->
  let result :=
    forEach (drag_node layout (midpoint (currentY state) (rect el)) (rect el)
               (draggedElementIndex state))
            (nodes state) (transform dom, []) in
  drag_effect layout state dom
  = Some ({| transform := fst result;
             webkitTransition := webkitTransition dom;
             visibility := visibility dom;
             body := body dom;
             duplicateBox := duplicateBox dom;
             duplicateTransform :=
               <[dup := currentY state]> (duplicateTransform dom) |},
          snd result).
Proof.
  intros Hdup Hel. unfold drag_effect. rewrite Hdup, Hel. simpl.
  by destruct (forEach _ _ _).
Qed.

(** When no later handle is the same node, the transform assigned at the
    visit is the one the node has when the effect is over. *)
Lemma drag_effect_shifts_final (layout : Layout) (state : State) (dom : Dom)
    (dup : Clone) (el : DraggedElement) (i : nat) (n : Node) :
  duplicateNode state = Some dup ->
  draggedElement state = Some el ->
  nodes state !! i = Some n ->
  draggedElementIndex state <> Some (Z.of_nat i) ->
  n ∉ drop (S i) (nodes state) ->
  exists dom' queue,
    drag_effect layout state dom = Some (dom', queue) /\
    transform dom' !! n
    = Some (shift_of (midpoint (currentY state) (rect el)) (rect el)
              (draggedElementIndex state) i (layout n)).
Proof.
  intros Hdup Hel Hn Hne Hlater. eexists _, _. split.
  - by apply (drag_effect_runs layout state dom dup el).
  - simpl. rewrite (forEach_resume _ _ _ _ _ (S i)).
    rewrite forEach_from_other by done. by apply forEach_assigns.
Qed.

(** ** The mounted tree *)

Lemma same_num_refl (a : float) : same_num a a = true.
Proof. by apply Leibniz.eqb_spec. Qed.

Lemma currentY_unchanged (prev next : State) :
  currentY prev = currentY next -> currentY_changed prev next = false.
Proof.
  intros H. unfold currentY_changed. rewrite H.
  destruct (currentY next); simpl; [by rewrite same_num_refl | done].
Qed.

Lemma isDragging_unchanged (prev next : State) :
  isDragging prev = isDragging next -> isDragging_changed prev next = false.
Proof. intros H. unfold isDragging_changed. by rewrite bool_decide_eq_true_2. Qed.

Lemma nodes_unchanged (prev next : State) :
  nodes prev = nodes next -> nodes_changed prev next = false.
Proof. intros H. unfold nodes_changed. by rewrite bool_decide_eq_true_2. Qed.

(** Reducing [SET_NEW_INDEX] actions changes the live target index only. *)
Lemma reduce_queue_frame (layout : Layout) (fresh : Clone)
    (queue : list Action) (state : State) :
  Forall (fun a => exists k, a = SET_NEW_INDEX k) queue ->
  let state' := foldl (reducer layout fresh) state queue in
  nodes state' = nodes state /\
  isDragging state' = isDragging state /\
  initialY state' = initialY state /\
  currentY state' = currentY state /\
  draggedElement state' = draggedElement state /\
  draggedElementIndex state' = draggedElementIndex state /\
  duplicateNode state' = duplicateNode state /\
  (queue = [] -> draggedElementNewIndex state'
                 = draggedElementNewIndex state).
Proof.
  simpl. intros Hq. revert state.
  induction Hq as [|a queue [k ->] _ IH]; intros state.
  - repeat split.
  - cbn [foldl].
    destruct (IH (reducer layout fresh state (SET_NEW_INDEX k)))
      as (-> & -> & -> & -> & -> & -> & -> & _).
    simpl. repeat split. discriminate.
Qed.

Lemma drag_effect_queue (layout : Layout) (state : State) (dom dom' : Dom)
    (queue : list Action) :
  drag_effect layout state dom = Some (dom', queue) ->
  Forall (fun a => exists k, a = SET_NEW_INDEX k) queue /\
  (duplicateNode state = None -> queue = [] /\ dom' = dom).
Proof.
  unfold drag_effect. destruct (duplicateNode state) as [dup|].
  - destruct (draggedElement state) as [el|]; [|done].
    destruct (forEach _ _ _) as [styles q] eqn:Hloop.
    intros [= <- <-]. split; [|done].
    change q with (snd (styles, q)). rewrite <- Hloop.
    unfold forEach. by apply forEach_queue.
  - intros [= <- <-]. done.
Qed.

Lemma same_session_refl (s : State) : same_session s s.
Proof. by repeat split. Qed.

Lemma same_session_trans (s1 s2 s3 : State) :
  same_session s1 s2 -> same_session s2 s3 -> same_session s1 s3.
Proof.
  unfold same_session. intros (? & ? & ? & ? & ? & ? & ?)
    (? & ? & ? & ? & ? & ? & ?). repeat split; congruence.
Qed.

Section Tree.
Context {A : Type}.
Variable undefined : A.
Implicit Types (w : World A) (e : Event) (layout : Layout).

(** When no dependency changed, the render runs no effect. *)
Lemma run_effects_quiet layout (prev next : State) w :
  nodes prev = nodes next ->
  isDragging prev = isDragging next ->
  currentY prev = currentY next ->
  run_effects undefined layout prev next w
  = Some {| w_state := next; w_handlers := w_handlers w;
            w_items := w_items w; w_dom := w_dom w;
            w_clones := w_clones w |}.
Proof.
  intros Hn Hd Hy. unfold run_effects.
  rewrite (nodes_unchanged _ _ Hn), (isDragging_unchanged _ _ Hd),
    (currentY_unchanged _ _ Hy). done.
Qed.

(** What a render leaves of the state it started from. *)
Lemma run_effects_state layout (prev next : State) w w' :
  run_effects undefined layout prev next w = Some w' ->
  nodes (w_state w') = nodes next /\
  isDragging (w_state w') = isDragging next /\
  draggedElement (w_state w') = draggedElement next /\
  draggedElementIndex (w_state w') = draggedElementIndex next /\
  duplicateNode (w_state w') = duplicateNode next /\
  (duplicateNode next = None ->
   draggedElementNewIndex (w_state w') = draggedElementNewIndex next) /\
  w_handlers w' =
    (if nodes_changed prev next || isDragging_changed prev next
     then next else w_handlers w).
Proof.
  unfold run_effects. intros Hrun.
  destruct (if isDragging_changed prev next
            then dragging_effect layout next (w_dom w) else Some (w_dom w))
    as [dom1|]; [|done].
  simpl in Hrun.
  destruct (if currentY_changed prev next
            then drag_effect layout next dom1 else Some (dom1, []))
    as [[dom2 queue]|] eqn:Hdrag; [|done].
  simpl in Hrun. injection Hrun as <-. simpl.
  assert (Hq : Forall (fun a => exists k, a = SET_NEW_INDEX k) queue /\
               (duplicateNode next = None -> queue = [])).
  { destruct (currentY_changed prev next).
    - apply drag_effect_queue in Hdrag as [? Hnone]. split; [done|].
      intros Hdup. by destruct (Hnone Hdup).
    - injection Hdrag as <- <-. done. }
  destruct Hq as [Hq Hempty].
  destruct (reduce_queue_frame layout (w_clones w) queue next Hq)
    as (-> & -> & _ & _ & -> & -> & -> & Hnew).
  repeat split. intros Hdup. apply Hnew. by apply Hempty.
Qed.

(** A press on a target that is not registered dispatches nothing. *)
Lemma step_press_unregistered layout w (target : Node) (clientY : float) :
  target ∉ nodes (w_handlers w) ->
  step undefined layout w (PressStart target clientY) = Some w.
Proof.
  intros Hout. simpl. unfold dragStart.
  destruct (some _ _) eqn:Hsome; [|done].
  by apply some_registered in Hsome.
Qed.

(** Every dispatch of a handler keeps the tree consistent. *)
Lemma dispatch_consistent layout w w' (action : Action) :
  consistent w ->
  (forall k, action <> SET_NEW_INDEX k) ->
  dispatch undefined layout w action = Some w' ->
  consistent w'.
Proof.
  intros [Hn Hd Hnever] Hact. unfold dispatch.
  set (next := reducer layout (w_clones w) (w_state w) action).
  intros Hrun. apply run_effects_state in Hrun
    as (Hn' & Hd' & Hel & Hidx & Hdup & Hnew & Hh). simpl in Hh.
  split.
  - rewrite Hn', Hh.
    destruct (nodes_changed (w_state w) next) eqn:Hc; simpl; [done|].
    apply negb_false_iff, bool_decide_eq_true in Hc.
    destruct (isDragging_changed (w_state w) next); [done | congruence].
  - rewrite Hd', Hh.
    destruct (isDragging_changed (w_state w) next) eqn:Hc;
      [by rewrite orb_true_r|].
    apply negb_false_iff, bool_decide_eq_true in Hc.
    rewrite orb_false_r.
    destruct (nodes_changed (w_state w) next); [done | congruence].
  - rewrite Hd', Hel, Hidx, Hdup. intros Hnone.
    assert (Hprev : isDragging (w_state w) = None /\
                    draggedElement next = draggedElement (w_state w) /\
                    draggedElementIndex next = draggedElementIndex (w_state w) /\
                    draggedElementNewIndex next
                    = draggedElementNewIndex (w_state w) /\
                    duplicateNode next = duplicateNode (w_state w)).
    { subst next. destruct action; simpl in *; try done.
      by destruct (Hact payload). }
    destruct Hprev as (Hp & -> & -> & Hnew' & Hdup').
    destruct (Hnever Hp) as (-> & -> & Hnone' & Hdn).
    rewrite Hnew by congruence. rewrite Hnew', Hdup'. done.
Qed.

Lemma step_consistent layout w w' e :
  consistent w -> step undefined layout w e = Some w' -> consistent w'.
Proof.
  intros Hw. destruct e as [n|target y|y|]; simpl.
  - by apply dispatch_consistent.
  - unfold dragStart. destruct (some _ _); simpl.
    + by apply dispatch_consistent.
    + by intros [= <-].
  - unfold drag. destruct (truthy _); simpl.
    + by apply dispatch_consistent.
    + by intros [= <-].
  - by apply dispatch_consistent.
Qed.

Lemma run_consistent w w' (events : list (Layout * Event)) :
  consistent w -> run undefined w events = Some w' -> consistent w'.
Proof.
  revert w. induction events as [|[layout e] events IH]; intros w Hw; simpl.
  - by intros [= <-].
  - destruct (step undefined layout w e) as [w1|] eqn:Hstep; [|done].
    apply IH. by eapply step_consistent.
Qed.

Lemma reachable_consistent (initialItems : list A) w :
  reachable undefined initialItems w -> consistent w.
Proof.
  intros [events Hrun]. eapply run_consistent; [|exact Hrun].
  by split.
Qed.

(** A move or a release on an idle tree leaves the items, the document and
    the session data as they are, and the tree idle. *)
Lemma step_idle layout w e :
  consistent w -> idle (w_state w) -> move_or_end e ->
  exists w',
    step undefined layout w e = Some w' /\
    consistent w' /\ idle (w_state w') /\
    w_items w' = w_items w /\ w_dom w' = w_dom w /\
    same_session (w_state w) (w_state w').
Proof.
  intros Hw Hidle He. destruct e as [n|target y|y|]; try done.
  - exists w. simpl. unfold drag.
    rewrite (handlers_isDragging w Hw). unfold idle in Hidle.
    rewrite Hidle. simpl. repeat (split; [done|]). apply same_session_refl.
  - assert (Hstep : exists w', step undefined layout w PressEnd = Some w' /\
              idle (w_state w') /\ w_items w' = w_items w /\
              w_dom w' = w_dom w /\ same_session (w_state w) (w_state w')).
    { simpl. unfold dispatch. simpl.
      destruct (isDragging (w_state w)) as [[|]|] eqn:Hd.
      - unfold idle in Hidle. by rewrite Hd in Hidle.
      - rewrite run_effects_quiet by done.
        eexists. split; [done|]. by repeat split.
      - destruct (never_dragged w Hw Hd) as (Hel & Hidx & Hnew & Hdup).
        unfold run_effects, isDragging_changed. simpl. rewrite Hd.
        rewrite bool_decide_eq_false_2 by done. simpl.
        rewrite currentY_unchanged by done.
        unfold dragging_effect. simpl. rewrite Hel. simpl.
        eexists. split; [done|]. simpl. split; [done|]. split.
        + apply commit_equal_indices. simpl. congruence.
        + by repeat split. }
    destruct Hstep as (w' & Hstep & ?). exists w'. split; [done|].
    split; [by eapply step_consistent | done].
Qed.

Lemma run_idle w (events : list (Layout * Event)) :
  consistent w -> idle (w_state w) ->
  Forall (fun le => move_or_end (snd le)) events ->
  exists w',
    run undefined w events = Some w' /\
    idle (w_state w') /\
    w_items w' = w_items w /\ w_dom w' = w_dom w /\
    same_session (w_state w) (w_state w').
Proof.
  intros Hw Hidle Hevents. revert w Hw Hidle.
  induction Hevents as [|[layout e] events He _ IH]; intros w Hw Hidle.
  - exists w. repeat (split; [done|]). apply same_session_refl.
  - destruct (step_idle layout w e Hw Hidle He)
      as (w1 & Hstep & Hw1 & Hidle1 & Hitems & Hdom & Hsame).
    destruct (IH w1 Hw1 Hidle1) as (w' & Hrun & ? & Hitems' & Hdom' & Hsame').
    exists w'. simpl. rewrite Hstep. split; [done|]. split; [done|].
    split; [congruence|]. split; [congruence|].
    by eapply same_session_trans.
Qed.

(** A release commits: with the duplicate attached to the document, the
    render after [DRAG_END] goes through, and the items are what the effect
    of [useSortable] makes of them with the indices the session recorded. *)
Lemma release_commits layout w (el : DraggedElement) (dup : Clone) :
  isDragging (w_state w) = Some true ->
  draggedElement (w_state w) = Some el ->
  duplicateNode (w_state w) = Some dup ->
  dup ∈ body (w_dom w) ->
  exists w',
    step undefined layout w PressEnd = Some w' /\
    w_state w' = reducer layout (w_clones w) (w_state w) DRAG_END /\
    w_items w'
    = commit undefined
        {| ctx_isDragging := Some false;
           oldIndex := draggedElementIndex (w_state w);
           newIndex := draggedElementNewIndex (w_state w) |} (w_items w).
Proof.
  intros Hd Hel Hdup Hbody. simpl.
  unfold dispatch, run_effects, isDragging_changed. simpl.
  rewrite Hd, bool_decide_eq_false_2 by done. simpl.
  rewrite currentY_unchanged by done.
  unfold dragging_effect, removeChild. simpl. rewrite Hel, Hdup.
  rewrite bool_decide_eq_true_2 by done. simpl.
  eexists. split; [done|]. done.
Qed.


(** C8: a press-start whose target is not a registered handle opens no
    session: the tree is left exactly as it was.  When the tree is idle,
    any moves and releases that follow leave the items, the styles of the
    document and the session data unchanged, and the tree idle. *)
Theorem unregistered_press_opens_no_session (initialItems : list A) layout w
    (target : Node) (clientY : float) :
  reachable undefined initialItems w ->
  target ∉ nodes (w_state w) ->
  step undefined layout w (PressStart target clientY) = Some w /\
  (idle (w_state w) ->
   forall events : list (Layout * Event),
     Forall (fun le => move_or_end (snd le)) events ->
     exists w',
       run undefined w events = Some w' /\
       idle (w_state w') /\
       w_items w' = w_items w /\
       w_dom w' = w_dom w /\
       same_session (w_state w) (w_state w')).
Proof.
  intros Hreach Hout. apply reachable_consistent in Hreach as Hw. split.
  - apply step_press_unregistered. by rewrite (handlers_nodes w Hw).
  - intros Hidle events Hevents. by apply run_idle.
Qed.

(** While a session is open, a press-start on a registered handle binds
    [initialY], the dragged element with its rectangle, the origin index
    and the duplicate to the new target; [isDragging] stays true and the
    registry, [currentY], the live target index, the items and the document
    are unchanged: neither effect runs, so the new duplicate is not
    appended to the body and the handlers are not installed again.  A
    press-start on a target that is not registered is ignored. *)
Lemma second_press_rebinds_session (initialItems : list A) layout w
    (target : Node) (clientY : float) :
  reachable undefined initialItems w ->
  isDragging (w_state w) = Some true ->
  (target ∈ nodes (w_state w) ->
   exists w' (i : nat),
     step undefined layout w (PressStart target clientY) = Some w' /\
     isDragging (w_state w') = Some true /\
     initialY (w_state w') = Some clientY /\
     draggedElement (w_state w')
     = Some {| node := target; rect := layout target |} /\
     draggedElementIndex (w_state w') = Some (Z.of_nat i) /\
     nodes (w_state w) !! i = Some target /\
     (forall j, j < i -> nodes (w_state w) !! j <> Some target) /\
     duplicateNode (w_state w') = Some (w_clones w) /\
     nodes (w_state w') = nodes (w_state w) /\
     currentY (w_state w') = currentY (w_state w) /\
     draggedElementNewIndex (w_state w')
     = draggedElementNewIndex (w_state w) /\
     w_items w' = w_items w /\
     w_dom w' = w_dom w /\
     w_handlers w' = w_handlers w) /\
  (target ∉ nodes (w_state w) ->
   step undefined layout w (PressStart target clientY) = Some w).
Proof.
  intros Hreach Hd. apply reachable_consistent in Hreach as Hw. split.
  - intros Hin.
    destruct (findIndex_registered target _ Hin) as (i & Hi & Hlook & Hfirst).
    eexists _, i. split.
    + simpl. unfold dragStart. rewrite (handlers_nodes w Hw).
      rewrite (proj2 (some_registered target _) Hin). simpl.
      unfold dispatch. apply run_effects_quiet; simpl; done.
    + simpl. rewrite Hi. by repeat split.
  - intros Hout. apply step_press_unregistered.
    by rewrite (handlers_nodes w Hw).
Qed.
End Tree.

(** ** Registration *)

Section Registration.
Context {A : Type}.
Variable undefined : A.

(** Mounting an item dispatches [ADD_NODE] and re-installs the handlers. *)
Lemma step_mount (layout : Layout) (w : World A) (n : Node) :
  let state' := reducer layout (w_clones w) (w_state w) (ADD_NODE n) in
  step undefined layout w (Mount n)
  = Some {| w_state := state'; w_handlers := state';
            w_items := w_items w; w_dom := w_dom w;
            w_clones := w_clones w |}.
Proof.
  simpl. unfold dispatch, run_effects. simpl.
  rewrite isDragging_unchanged, currentY_unchanged by done.
  unfold nodes_changed. simpl. rewrite bool_decide_eq_false_2; [done|].
  unfold push. intros Heq. apply (f_equal length) in Heq.
  rewrite length_app in Heq. simpl in Heq. lia.
Qed.

Lemma run_mounts (layout : Layout) (ns : list Node) (w : World A) :
  exists w',
    run undefined w ((fun n => (layout, Mount n)) <$> ns) = Some w' /\
    nodes (w_state w') = nodes (w_state w) ++ ns /\
    w_items w' = w_items w.
Proof.
  revert w. induction ns as [|n ns IH]; intros w.
  - exists w. simpl. by rewrite app_nil_r.
  - cbn [fmap list_fmap run]. rewrite step_mount.
    edestruct IH as (w' & -> & Hnodes & Hitems). exists w'.
    split; [done|]. split; [|done].
    rewrite Hnodes. simpl. unfold push. by rewrite <- app_assoc.
Qed.

(** C9, as the code has it: registration appends.  A handle that is
    registered again is appended again, the registry growing by one each
    time; registering the handles in mount order from the empty registry
    yields exactly the mount sequence, so with one handle per item the
    registry has the order and the length of the items. *)
Theorem registration_appends (layout : Layout) (fresh : Clone)
    (state : State) (n : Node) (ns : list Node) (initialItems : list A) :
  nodes (reducer layout fresh state (ADD_NODE n)) = nodes state ++ [n] /\
  length (nodes (reducer layout fresh state (ADD_NODE n)))
  = S (length (nodes state)) /\
  nodes (foldl (reducer layout fresh) initialState (ADD_NODE <$> ns)) = ns /\
  exists w,
    run undefined (initialWorld initialItems)
      ((fun n => (layout, Mount n)) <$> ns) = Some w /\
    nodes (w_state w) = ns /\
    w_items w = initialItems.
Proof.
  split; [done|]. split; [|split].
  - simpl. unfold push. rewrite length_app. simpl. lia.
  - by rewrite add_nodes_registry.
  - destruct (run_mounts layout ns (initialWorld initialItems))
      as (w & Hrun & Hnodes & Hitems).
    by exists w.
Qed.
End Registration.

(** C9, as stated, fails: registering the handle [7] a second time does not
    leave the registry unchanged. *)
Lemma registration_not_idempotent :
  let once := reducer rows 0 initialState (ADD_NODE 7) in
  let twice := reducer rows 0 once (ADD_NODE 7) in
  7 ∈ nodes once /\ nodes once = [7] /\ nodes twice = [7; 7] /\
  nodes twice <> nodes once.
Proof. simpl. repeat split; [apply list_elem_of_here | discriminate]. Qed.

(** ** A pointer-move step *)

Section MoveStep.
Context {A : Type}.
Variable undefined : A.
Implicit Types (w : World A) (layout : Layout).





End MoveStep.



(** C7, on the code: with a session open on the first item, a press-start
    on the second item is not ignored.  It moves the origin index, the
    dragged element and the start position to the second item and makes a
    second duplicate, which is never appended to the body: the body still
    holds the first duplicate only, and the handlers still measure from the
    first press.  The release then throws in [removeChild]. *)
Theorem second_press_not_ignored :
  let first := session [PressStart 0 10] in
  let second := session [PressStart 0 10; PressStart 1 30] in
  let released := session [PressStart 0 10; PressStart 1 30; PressEnd] in
  (isDragging ∘ w_state) <$> first = Some (Some true) /\
  (draggedElementIndex ∘ w_state) <$> first = Some (Some 0%Z) /\
  (duplicateNode ∘ w_state) <$> first = Some (Some 0) /\
  (isDragging ∘ w_state) <$> second = Some (Some true) /\
  (draggedElementIndex ∘ w_state) <$> second = Some (Some 1%Z) /\
  (initialY ∘ w_state) <$> second = Some (Some 30%float) /\
  (initialY ∘ w_handlers) <$> second = Some (Some 10%float) /\
  (duplicateNode ∘ w_state) <$> second = Some (Some 1) /\
  (body ∘ w_dom) <$> second = Some [0] /\
  released = None.
Proof. vm_compute. repeat split. Qed.

(** C6, on the code: a press on the third item followed by a release, with
    no pointer movement in between, leaves the live target index undefined,
    which differs from the origin index 2; the commit runs and [splice]
    reads the undefined target as position 0, so C moves to the front. *)
Theorem press_and_release_reorders :
  let released := session [PressStart 2 50; PressEnd] in
  (draggedElementIndex ∘ w_state) <$> released = Some (Some 2%Z) /\
  (draggedElementNewIndex ∘ w_state) <$> released = Some None /\
  (currentY ∘ w_state) <$> released = Some None /\
  w_items <$> released = Some [LC; LA; LB; LD; LE].
Proof. vm_compute. repeat split. Qed.

(** The same defect with move events that report no displacement: the live
    target index of the previous session is still in the state when the
    next one is released. *)
Example stale_target_reorders :
  w_items <$> session [PressStart 4 90; PressMove 90; PressEnd;
                       PressStart 2 50; PressMove 50; PressEnd]
  = Some [LA; LB; LD; LE; LC].
Proof. vm_compute. reflexivity. Qed.

(** With a move event that reports no displacement in a first session, the
    scan finds the dragged item itself and nothing is committed. *)
Example still_drag_keeps_order :
  w_items <$> session [PressStart 2 50; PressMove 50; PressEnd]
  = Some ABCDE.
Proof. vm_compute. reflexivity. Qed.

(** ** The theorems at work on the demo list *)

Lemma mounted_world_reachable : reachable Lundefined ABCDE mounted_world.
Proof.
  exists (on_rows (Mount <$> [0; 1; 2; 3; 4])). vm_compute. reflexivity.
Defined.

Lemma dragging_world_reachable : reachable Lundefined ABCDE dragging_world.
Proof.
  exists (on_rows ((Mount <$> [0; 1; 2; 3; 4]) ++ [PressStart 0 10])).
  vm_compute. reflexivity.
Defined.

Lemma commit_moves_one_item_released_A :
  exists items' x,
    useSortable_effect Lundefined (ctx_of released_A) ABCDE = Some items' /\
    length items' = length ABCDE /\
    items' ≡ₚ ABCDE /\
    ABCDE !! Z.to_nat 0 = Some x /\
    items' !! Z.to_nat 2 = Some x /\
    delete (Z.to_nat 2) items' = delete (Z.to_nat 0) ABCDE.
Proof.
  apply (commit_moves_one_item Lundefined released_A ABCDE 0 2);
    first [reflexivity | simpl; lia].
Defined.

Lemma commit_iff_indices_differ_released_A :
  useSortable_effect Lundefined (ctx_of released_A) ABCDE
  = Some [LB; LC; LA; LD; LE] /\
  (is_Some (useSortable_effect Lundefined (ctx_of released_A) ABCDE)
   <-> draggedElementIndex released_A <> draggedElementNewIndex released_A).
Proof.
  destruct (commit_iff_indices_differ Lundefined released_A ABCDE eq_refl)
    as (Hiff & Hmove & _).
  split; [|exact Hiff].
  apply (Hmove 0%Z 2%Z LA); first [reflexivity | discriminate | simpl; lia].
Defined.

Lemma demo_registry_identity (i : nat) (n : Node) :
  [0; 1; 2; 3; 4] !! i = Some n -> n = i /\ i < 5.
Proof.
  intros Hi.
  do 5 (destruct i as [|i]; [simpl in Hi; split; [congruence | lia]|]).
  done.
Qed.




Lemma second_press_rebinds_dragging_world :
  exists w' (i : nat),
    step Lundefined rows dragging_world (PressStart 1 30) = Some w' /\
    draggedElementIndex (w_state w') = Some (Z.of_nat i) /\
    nodes (w_state dragging_world) !! i = Some 1 /\
    initialY (w_state w') = Some 30%float.
Proof.
  destruct (second_press_rebinds_session Lundefined ABCDE rows dragging_world
              1 30 dragging_world_reachable) as [Hin _];
    [vm_compute; reflexivity|].
  destruct Hin as (w' & i & Hstep & _ & Hy & _ & Hidx & Hi & _).
  - vm_compute. do 2 constructor.
  - exists w', i. repeat split; assumption.
Defined.

Lemma unregistered_press_on_mounted_world :
  step Lundefined rows mounted_world (PressStart 9 10) = Some mounted_world /\
  exists w',
    run Lundefined mounted_world (on_rows [PressMove 30; PressEnd]) = Some w' /\
    idle (w_state w') /\
    w_items w' = ABCDE /\
    w_dom w' = w_dom mounted_world /\
    same_session (w_state mounted_world) (w_state w').
Proof.
  destruct (unregistered_press_opens_no_session Lundefined ABCDE rows
              mounted_world 9 10 mounted_world_reachable) as [Hpress Hafter].
  - vm_compute. intros Hin. repeat (inversion_clear Hin as [|? ? ? Hin']; rename Hin' into Hin).
  - split; [exact Hpress|].
    apply Hafter; [reflexivity|].
    repeat constructor.
Defined.

(** * Further properties *)

(** ** [splice] on any start position *)

Section SpliceAnywhere.
Context {A : Type}.
Variable undefined : A.
Implicit Types (items : list A) (from to : option Z).

Lemma splice_start_le (len : nat) (start : option Z) :
  splice_start len start <= len.
Proof.
  unfold splice_start. destruct start as [z|]; [|lia].
  destruct (Z.ltb_spec z 0); lia.
Qed.

(** Removing one element wherever the start position resolves inside the
    array. *)
Lemma splice_remove_inside items from x :
  items !! splice_start (length items) from = Some x ->
  splice from 1 [] items
  = ([x], delete (splice_start (length items) from) items).
Proof.
  intros Hx. pose proof (lookup_lt_Some _ _ _ Hx) as Hlt.
  unfold splice. set (s := splice_start (length items) from) in *.
  replace (Z.to_nat (Z.min (Z.max 1 0) (Z.of_nat (length items - s))))
    with 1 by lia.
  f_equal.
  - by rewrite (drop_S _ _ _ Hx).
  - rewrite delete_take_drop. simpl. do 2 f_equal. lia.
Qed.

(** A start position at the end of the array removes nothing. *)
Lemma splice_remove_outside items from :
  splice_start (length items) from = length items ->
  splice from 1 [] items = ([], items).
Proof.
  intros Hs. unfold splice. rewrite Hs.
  replace (Z.to_nat (Z.min (Z.max 1 0)
             (Z.of_nat (length items - length items)))) with 0 by lia.
  rewrite Nat.add_0_r, drop_all, (take_ge items) by lia.
  by rewrite app_nil_r.
Qed.

Lemma splice_insert_anywhere items to x :
  splice to 0 [x] items
  = ([], take (splice_start (length items) to) items
         ++ x :: drop (splice_start (length items) to) items).
Proof.
  unfold splice. set (t := splice_start (length items) to).
  replace (Z.to_nat (Z.min (Z.max 0 0) (Z.of_nat (length items - t))))
    with 0 by lia.
  by rewrite Nat.add_0_r.
Qed.

Lemma move_item_inside items from to x :
  items !! splice_start (length items) from = Some x ->
  move_item undefined from to items
  = take (splice_start (length items - 1) to)
      (delete (splice_start (length items) from) items)
    ++ x :: drop (splice_start (length items - 1) to)
              (delete (splice_start (length items) from) items).
Proof.
  intros Hx. unfold move_item. rewrite (splice_remove_inside _ _ x) by done.
  change (default undefined ([x] !! 0)) with x.
  rewrite splice_insert_anywhere. simpl.
  by rewrite length_delete by eauto.
Qed.

(** Whatever the two indices are (undefined, negative, past the end), as
    long as the origin resolves to a position of the array the move keeps
    the length and the items, puts the item of that position at the
    resolved target, and leaves the others in their order. *)
Theorem move_item_any_indices items from to x :
  items !! splice_start (length items) from = Some x ->
  let s := splice_start (length items) from in
  let t := splice_start (length items - 1) to in
  let items' := move_item undefined from to items in
  length items' = length items /\
  items' ≡ₚ items /\
  items' !! t = Some x /\
  delete t items' = delete s items.
Proof.
  intros Hx. simpl. rewrite (move_item_inside _ _ _ x) by done.
  pose proof (lookup_lt_Some _ _ _ Hx) as Hlt.
  assert (Hlen : length (delete (splice_start (length items) from) items)
                 = length items - 1) by (apply length_delete; eauto).
  pose proof (splice_start_le (length items - 1) to) as Hle.
  repeat split.
  - rewrite insert_middle_length. lia.
  - rewrite insert_middle_perm. symmetry. by apply delete_Permutation.
  - apply insert_middle_lookup. lia.
  - apply insert_middle_delete. lia.
Qed.

(** When the origin resolves to the end of the array (an index past the
    last item, or any index on an empty array), nothing is removed and
    [undefined] is inserted at the target: the array grows by one. *)
Theorem move_item_origin_outside items from to :
  splice_start (length items) from = length items ->
  let t := splice_start (length items) to in
  move_item undefined from to items
  = take t items ++ undefined :: drop t items /\
  length (move_item undefined from to items) = S (length items).
Proof.
  intros Hs. simpl. unfold move_item.
  rewrite splice_remove_outside by done.
  change (default undefined ([] !! 0)) with undefined.
  rewrite splice_insert_anywhere. simpl. split; [done|].
  apply insert_middle_length.
Qed.

Lemma reinsert_deleted items (i : nat) x :
  items !! i = Some x ->
  take i (delete i items) ++ x :: drop i (delete i items) = items.
Proof.
  intros Hx. pose proof (lookup_lt_Some _ _ _ Hx) as Hlt.
  rewrite delete_take_drop.
  rewrite take_app_le by (rewrite length_take; lia).
  rewrite take_take, Nat.min_id.
  rewrite drop_app_ge by (rewrite length_take; lia).
  rewrite length_take_le by lia. rewrite Nat.sub_diag, drop_0.
  by apply take_drop_middle.
Qed.

(** Moving an item and moving it back restores the array. *)
Theorem move_item_back items (from to : Z) :
  (0 <= from < Z.of_nat (length items))%Z ->
  (0 <= to < Z.of_nat (length items))%Z ->
  move_item undefined (Some to) (Some from)
    (move_item undefined (Some from) (Some to) items)
  = items.
Proof.
  intros Hfrom Hto.
  destruct (lookup_lt_is_Some_2 items (Z.to_nat from)) as [x Hx]; [lia|].
  assert (Hlen : length (delete (Z.to_nat from) items) = length items - 1)
    by (apply length_delete; eauto).
  rewrite (move_item_valid undefined items from to x) by (done || lia).
  set (moved := take (Z.to_nat to) (delete (Z.to_nat from) items)
                ++ x :: drop (Z.to_nat to) (delete (Z.to_nat from) items)).
  assert (Hx' : moved !! Z.to_nat to = Some x)
    by (apply insert_middle_lookup; lia).
  assert (Hdel : delete (Z.to_nat to) moved = delete (Z.to_nat from) items)
    by (apply insert_middle_delete; lia).
  assert (Hmoved : length moved = length items)
    by (unfold moved; rewrite insert_middle_length; lia).
  rewrite (move_item_valid undefined moved to from x) by (done || lia).
  rewrite Hdel. by apply reinsert_deleted.
Qed.
End SpliceAnywhere.

(** ** What the events leave alone *)

Section Frames.
Context {A : Type}.
Variable undefined : A.
Implicit Types (w : World A) (e : Event) (layout : Layout).

Lemma run_app w (events1 events2 : list (Layout * Event)) :
  run undefined w (events1 ++ events2)
  = w1 ← run undefined w events1; run undefined w1 events2.
Proof.
  revert w. induction events1 as [|[layout e] events1 IH]; intros w; simpl.
  - done.
  - destruct (step undefined layout w e); [apply IH | done].
Qed.

Lemma run_effects_items layout (prev next : State) w w' :
  run_effects undefined layout prev next w = Some w' ->
  w_items w' =
    (if isDragging_changed prev next
     then commit undefined (ctx_of next) (w_items w)
     else w_items w).
Proof.
  unfold run_effects. intros Hrun.
  destruct (if isDragging_changed prev next
            then dragging_effect layout next (w_dom w) else Some (w_dom w))
    as [dom1|]; [|done].
  simpl in Hrun.
  destruct (if currentY_changed prev next
            then drag_effect layout next dom1 else Some (dom1, []))
    as [[dom2 queue]|]; [|done].
  simpl in Hrun. by injection Hrun as <-.
Qed.

Lemma dispatch_items layout w w' (action : Action) :
  action <> DRAG_END ->
  (forall k, action <> SET_NEW_INDEX k) ->
  dispatch undefined layout w action = Some w' ->
  w_items w' = w_items w.
Proof.
  intros Hend Hidx. unfold dispatch. intros Hrun.
  apply run_effects_items in Hrun as ->. simpl.
  destruct (isDragging_changed _ _) eqn:Hc; [|done].
  apply commit_not_ended. simpl. intros Hfalse.
  destruct action; simpl in *; try done.
  - apply negb_true_iff, bool_decide_eq_false in Hc. by apply Hc.
  - apply negb_true_iff, bool_decide_eq_false in Hc. by apply Hc.
  - by destruct (Hidx payload).
  - apply negb_true_iff, bool_decide_eq_false in Hc. by apply Hc.
Qed.

Lemma dispatch_nodes layout w w' (action : Action) :
  dispatch undefined layout w action = Some w' ->
  nodes (w_state w')
  = nodes (reducer layout (w_clones w) (w_state w) action).
Proof.
  unfold dispatch. intros Hrun.
  by apply run_effects_state in Hrun as (-> & _).
Qed.

(** The items change at a release only, and the registry at a mount only:
    no press and no move touches either, and no release touches the
    registry. *)
Theorem events_frame layout w w' e :
  step undefined layout w e = Some w' ->
  (e <> PressEnd -> w_items w' = w_items w) /\
  ((forall n, e <> Mount n) -> nodes (w_state w') = nodes (w_state w)) /\
  (forall n, e = Mount n -> nodes (w_state w') = nodes (w_state w) ++ [n]).
Proof.
  intros Hstep. split; [|split].
  - intros He. destruct e as [n|target y|y|]; cbn [step handle addNode dragEnd] in Hstep; [| | |done].
    + by eapply dispatch_items; [| |exact Hstep].
    + unfold dragStart in Hstep. destruct (some _ _); cbn [step handle addNode dragEnd] in Hstep.
      * by eapply dispatch_items; [| |exact Hstep].
      * by injection Hstep as <-.
    + unfold drag in Hstep. destruct (truthy _); cbn [step handle addNode dragEnd] in Hstep.
      * by eapply dispatch_items; [| |exact Hstep].
      * by injection Hstep as <-.
  - intros He. destruct e as [n|target y|y|]; cbn [step handle addNode dragEnd] in Hstep.
    + by destruct (He n).
    + unfold dragStart in Hstep. destruct (some _ _); cbn [step handle addNode dragEnd] in Hstep.
      * by apply dispatch_nodes in Hstep.
      * by injection Hstep as <-.
    + unfold drag in Hstep. destruct (truthy _); cbn [step handle addNode dragEnd] in Hstep.
      * by apply dispatch_nodes in Hstep.
      * by injection Hstep as <-.
    + by apply dispatch_nodes in Hstep.
  - intros n ->. cbn [step handle addNode dragEnd] in Hstep. by apply dispatch_nodes in Hstep.
Qed.
End Frames.

(** ** What the session data point at *)

Lemma forEach_queue_bound (layout : Layout) (offset : float)
    (draggedRect : Rect) (dragged : option Z) (bound : nat)
    (registry : list Node) (i : nat)
    (acc : gmap Node Transform * list Action) :
  i + length registry <= bound ->
  Forall (fun a => exists k : nat, a = SET_NEW_INDEX (Z.of_nat k) /\ k < bound)
    (snd acc) ->
  Forall (fun a => exists k : nat, a = SET_NEW_INDEX (Z.of_nat k) /\ k < bound)
    (snd (forEach_from i (drag_node layout offset draggedRect dragged)
            registry acc)).
Proof.
  revert i acc. induction registry as [|m registry IH]; intros i acc Hi Hacc.
  - done.
  - simpl in *. apply IH; [lia|]. unfold drag_node. simpl.
    destruct (contains offset (layout m)); [|done].
    apply Forall_app. split; [done|]. apply Forall_singleton.
    exists i. split; [done | lia].
Qed.

Lemma drag_effect_queue_bound (layout : Layout) (state : State)
    (dom dom' : Dom) (queue : list Action) :
  drag_effect layout state dom = Some (dom', queue) ->
  Forall (fun a => exists k : nat,
            a = SET_NEW_INDEX (Z.of_nat k) /\ k < length (nodes state)) queue.
Proof.
  unfold drag_effect. destruct (duplicateNode state) as [dup|].
  - destruct (draggedElement state) as [el|]; [|done].
    destruct (forEach _ _ _) as [styles q] eqn:Hloop.
    intros [= <- <-]. change q with (snd (styles, q)). rewrite <- Hloop.
    unfold forEach. by apply forEach_queue_bound.
  - by intros [= <- <-].
Qed.

(** Reducing the queued actions leaves the live target index as it was or
    sets it to one of the queued indices. *)
Lemma reduce_queue_target (layout : Layout) (fresh : Clone) (bound : nat)
    (queue : list Action) (state : State) :
  Forall (fun a => exists k : nat, a = SET_NEW_INDEX (Z.of_nat k) /\ k < bound)
    queue ->
  let live :=
    draggedElementNewIndex (foldl (reducer layout fresh) state queue) in
  live = draggedElementNewIndex state \/
  exists k : nat, live = Some (Z.of_nat k) /\ k < bound.
Proof.
  simpl. intros Hq. revert state.
  induction Hq as [|a queue (k & -> & Hk) _ IH]; intros state.
  - by left.
  - cbn [foldl].
    destruct (IH (reducer layout fresh state (SET_NEW_INDEX (Z.of_nat k))))
      as [Hsame|Hset]; [|by right].
    right. exists k. by rewrite Hsame.
Qed.

Section SessionData.
Context {A : Type}.
Variable undefined : A.
Implicit Types (w : World A) (e : Event) (layout : Layout).

Lemma run_effects_target layout (prev next : State) w w' :
  run_effects undefined layout prev next w = Some w' ->
  draggedElementNewIndex (w_state w') = draggedElementNewIndex next \/
  exists k : nat,
    draggedElementNewIndex (w_state w') = Some (Z.of_nat k) /\
    k < length (nodes next).
Proof.
  unfold run_effects. intros Hrun.
  destruct (if isDragging_changed prev next
            then dragging_effect layout next (w_dom w) else Some (w_dom w))
    as [dom1|]; [|done].
  simpl in Hrun.
  destruct (if currentY_changed prev next
            then drag_effect layout next dom1 else Some (dom1, []))
    as [[dom2 queue]|] eqn:Hdrag; [|done].
  simpl in Hrun. injection Hrun as <-. simpl.
  apply reduce_queue_target.
  destruct (currentY_changed prev next).
  - by eapply drag_effect_queue_bound.
  - by injection Hdrag as <- <-.
Qed.

Lemma anchored_more_nodes (state : State) (n : Node) layout (fresh : Clone) :
  anchored state -> anchored (reducer layout fresh state (ADD_NODE n)).
Proof.
  intros Hanch d Hd. destruct (Hanch d Hd) as (el & i & Hel & -> & Hi & Hfirst).
  exists el, i. simpl. unfold push. split; [done|]. split; [done|].
  pose proof (lookup_lt_Some _ _ _ Hi) as Hlt. split.
  - by apply lookup_app_l_Some.
  - intros j Hj. rewrite lookup_app_l by lia. by apply Hfirst.
Qed.

Lemma anchored_drag_start (state : State) (target : Node) (y : float) layout
    (fresh : Clone) :
  target ∈ nodes state ->
  anchored (reducer layout fresh state (DRAG_START y target)).
Proof.
  intros Hin d Hd. simpl in Hd. injection Hd as <-.
  destruct (findIndex_registered target _ Hin) as (i & Hi & Hlook & Hfirst).
  by exists {| node := target; rect := layout target |}, i.
Qed.

(** A dispatched action keeps the session data pointing into the
    registry. *)
Lemma dispatch_session_data layout w w' (action : Action) :
  anchored (w_state w) -> targeted (w_state w) ->
  anchored (reducer layout (w_clones w) (w_state w) action) ->
  (forall k, action <> SET_NEW_INDEX k) ->
  dispatch undefined layout w action = Some w' ->
  anchored (w_state w') /\ targeted (w_state w').
Proof.
  intros Hanch Htarget Hnext Hact. unfold dispatch.
  set (next := reducer layout (w_clones w) (w_state w) action) in *.
  intros Hrun.
  pose proof (run_effects_target _ _ _ _ _ Hrun) as Hlive.
  apply run_effects_state in Hrun as (Hn & _ & Hel & Hidx & _).
  split.
  - intros d Hd. rewrite Hidx in Hd.
    destruct (Hnext d Hd) as (el & i & ? & ? & ? & ?).
    exists el, i. rewrite Hel, Hn. done.
  - assert (Hgrow : length (nodes (w_state w)) <= length (nodes next) /\
                    draggedElementNewIndex next
                    = draggedElementNewIndex (w_state w)).
    { subst next. destruct action; simpl; try done.
      - unfold push. rewrite length_app. simpl. split; [lia | done].
      - by destruct (Hact payload). }
    destruct Hgrow as [Hlen Hsame].
    intros k Hk. rewrite Hn.
    destruct Hlive as [Hlive|(k' & Hlive & Hlt)].
    + rewrite Hlive, Hsame in Hk. specialize (Htarget k Hk). lia.
    + rewrite Hlive in Hk. injection Hk as <-. lia.
Qed.

Lemma step_session_data layout w w' e :
  consistent w -> anchored (w_state w) -> targeted (w_state w) ->
  step undefined layout w e = Some w' ->
  anchored (w_state w') /\ targeted (w_state w').
Proof.
  intros Hw Hanch Htarget Hstep.
  destruct e as [n|target y|y|]; cbn [step handle addNode dragEnd] in Hstep.
  - apply (dispatch_session_data layout w w' (ADD_NODE n)); try done.
    by apply anchored_more_nodes.
  - unfold dragStart in Hstep. destruct (some _ _) eqn:Hsome;
      cbn [handle] in Hstep.
    + apply (dispatch_session_data layout w w' (DRAG_START y target));
        try done.
      apply anchored_drag_start. apply some_registered in Hsome.
      by rewrite <- (handlers_nodes w Hw).
    + by injection Hstep as <-.
  - unfold drag in Hstep. destruct (truthy _); cbn [handle] in Hstep.
    + eapply (dispatch_session_data layout w w'); [done | done | | | done].
      * intros d Hd. exact (Hanch d Hd).
      * done.
    + by injection Hstep as <-.
  - by apply (dispatch_session_data layout w w' DRAG_END).
Qed.

Lemma run_session_data w w' (events : list (Layout * Event)) :
  consistent w -> anchored (w_state w) -> targeted (w_state w) ->
  run undefined w events = Some w' ->
  anchored (w_state w') /\ targeted (w_state w').
Proof.
  revert w. induction events as [|[layout e] events IH];
    intros w Hw Hanch Htarget; simpl.
  - by intros [= <-].
  - destruct (step undefined layout w e) as [w1|] eqn:Hstep; [|done].
    destruct (step_session_data _ _ _ _ Hw Hanch Htarget Hstep).
    apply IH; [by eapply step_consistent | done | done].
Qed.

Lemma reachable_session_data (initialItems : list A) w :
  reachable undefined initialItems w ->
  anchored (w_state w) /\ targeted (w_state w).
Proof.
  intros [events Hrun]. eapply run_session_data; [| | |exact Hrun].
  - by split.
  - intros d Hd. done.
  - intros k Hk. done.
Qed.

(** Whenever the state holds an origin index, it is the first position of
    the dragged node in the registry: never [-1], and still right after
    further items have mounted. *)
Theorem origin_index_is_position_of_dragged (initialItems : list A) w
    (d : Z) :
  reachable undefined initialItems w ->
  draggedElementIndex (w_state w) = Some d ->
  exists (el : DraggedElement) (i : nat),
    draggedElement (w_state w) = Some el /\
    d = Z.of_nat i /\
    nodes (w_state w) !! i = Some (node el) /\
    forall j, j < i -> nodes (w_state w) !! j <> Some (node el).
Proof.
  intros Hreach Hd.
  destruct (reachable_session_data _ _ Hreach) as [Hanch _].
  by apply Hanch.
Qed.

(** Whenever the state holds a live target index, it is a position of the
    registry. *)
Theorem live_target_is_position_of_registry (initialItems : list A) w
    (k : Z) :
  reachable undefined initialItems w ->
  draggedElementNewIndex (w_state w) = Some k ->
  (0 <= k < Z.of_nat (length (nodes (w_state w))))%Z.
Proof.
  intros Hreach Hk.
  destruct (reachable_session_data _ _ Hreach) as [_ Htarget].
  by apply Htarget.
Qed.

(** The installed handlers always see the registry and the dragging flag of
    the current state, although they are installed again only when one of
    the two changes; and a tree in which no press was ever accepted holds
    no session data. *)
Theorem handlers_see_current_state (initialItems : list A) w :
  reachable undefined initialItems w ->
  nodes (w_handlers w) = nodes (w_state w) /\
  isDragging (w_handlers w) = isDragging (w_state w) /\
  (isDragging (w_state w) = None ->
   draggedElement (w_state w) = None /\
   draggedElementIndex (w_state w) = None /\
   draggedElementNewIndex (w_state w) = None /\
   duplicateNode (w_state w) = None).
Proof.
  intros Hreach. apply reachable_consistent in Hreach as [Hn Hd Hnever].
  done.
Qed.
End SessionData.

(** ** The effect keyed on [state.currentY], on any page *)

Section DragEffectFrame.
Variable layout : Layout.
Variables (offset : float) (draggedRect : Rect) (dragged : option Z).

(** The loop leaves the transform of a node alone unless it visits the node
    at an index other than the dragged one. *)
Lemma forEach_from_untouched (registry : list Node) (i : nat) (n : Node)
    (acc : gmap Node Transform * list Action) :
  (forall j, registry !! j = Some n ->
             dragged = Some (Z.of_nat (i + j))) ->
  fst (forEach_from i (drag_node layout offset draggedRect dragged)
         registry acc) !! n
  = fst acc !! n.
Proof.
  revert i acc. induction registry as [|m registry IH]; intros i acc Hn.
  - done.
  - simpl. rewrite IH.
    + unfold drag_node. simpl. unfold index_differs.
      destruct (decide (m = n)) as [->|Hne].
      * rewrite bool_decide_eq_true_2; [done|].
        rewrite (Hn 0) by done. by rewrite Nat.add_0_r.
      * destruct (negb _); [|done]. by apply lookup_insert_ne.
    + intros j Hj. rewrite (Hn (S j)) by done. do 2 f_equal. lia.
Qed.
End DragEffectFrame.

(** The effect writes the transform of the duplicate of the session and
    transforms of registered nodes, and nothing else: transitions,
    visibilities, the children of the body and the boxes of the duplicates
    stay as they are, the duplicate gets the displacement of the state,
    every other duplicate keeps its transform, a node outside the registry
    keeps its transform, and so does the dragged node when it is registered
    once. *)
Theorem drag_effect_frame (layout : Layout) (state : State)
    (dom dom' : Dom) (queue : list Action) :
  drag_effect layout state dom = Some (dom', queue) ->
  webkitTransition dom' = webkitTransition dom /\
  visibility dom' = visibility dom /\
  body dom' = body dom /\
  duplicateBox dom' = duplicateBox dom /\
  (forall dup, duplicateNode state = Some dup ->
     duplicateTransform dom' !! dup = Some (currentY state)) /\
  (forall c, duplicateNode state <> Some c ->
     duplicateTransform dom' !! c = duplicateTransform dom !! c) /\
  (forall n, n ∉ nodes state -> transform dom' !! n = transform dom !! n) /\
  (forall (d : nat) n,
     draggedElementIndex state = Some (Z.of_nat d) ->
     nodes state !! d = Some n ->
     (forall j, nodes state !! j = Some n -> j = d) ->
     transform dom' !! n = transform dom !! n).
Proof.
  unfold drag_effect. destruct (duplicateNode state) as [dup|].
  - destruct (draggedElement state) as [el|]; [|done].
    destruct (forEach _ _ _) as [styles q] eqn:Hloop.
    intros [= <- <-]. simpl. repeat split.
    + intros ? [= <-]. apply lookup_insert_eq.
    + intros c Hc. apply lookup_insert_ne. congruence.
    + intros n Hn. change styles with (fst (styles, q)). rewrite <- Hloop.
      unfold forEach. rewrite forEach_from_untouched; [done|].
      intros j Hj. destruct Hn. by eapply list_elem_of_lookup_2.
    + intros d n Hd Hn Honce. change styles with (fst (styles, q)).
      rewrite <- Hloop. unfold forEach.
      rewrite forEach_from_untouched; [done|].
      intros j Hj. rewrite Hd. by rewrite (Honce j Hj).
  - intros [= <- <-]. by repeat split.
Qed.

(** ** The effect on a page of stacked items *)

(** The order of the floats, from the comparison of the fields of their
    binary representation. *)
Lemma SFltb_leb_trans (a b c : spec_float) :
  SFltb a b = true -> SFleb b c = true -> SFltb a c = true.
Proof.
  unfold SFltb, SFleb.
  destruct a as [[]|[]| |[] ma ea], b as [[]|[]| |[] mb eb],
    c as [[]|[]| |[] mc ec]; simpl; try congruence;
  change (Pos.compare_cont Eq) with Pos.compare;
  destruct (Z.compare_spec ea eb), (Z.compare_spec eb ec),
    (Z.compare_spec ea ec); simpl; try congruence; try lia; subst;
  destruct (Pos.compare_spec ma mb), (Pos.compare_spec mb mc),
    (Pos.compare_spec ma mc); simpl; try congruence; try lia.
Qed.

Lemma SFleb_ltb_trans (a b c : spec_float) :
  SFleb a b = true -> SFltb b c = true -> SFltb a c = true.
Proof.
  unfold SFltb, SFleb.
  destruct a as [[]|[]| |[] ma ea], b as [[]|[]| |[] mb eb],
    c as [[]|[]| |[] mc ec]; simpl; try congruence;
  change (Pos.compare_cont Eq) with Pos.compare;
  destruct (Z.compare_spec ea eb), (Z.compare_spec eb ec),
    (Z.compare_spec ea ec); simpl; try congruence; try lia; subst;
  destruct (Pos.compare_spec ma mb), (Pos.compare_spec mb mc),
    (Pos.compare_spec ma mc); simpl; try congruence; try lia.
Qed.

Lemma SFltb_asym (a b : spec_float) :
  SFltb a b = true -> SFltb b a = false.
Proof.
  unfold SFltb.
  destruct a as [[]|[]| |[] ma ea], b as [[]|[]| |[] mb eb];
    simpl; try congruence;
  change (Pos.compare_cont Eq) with Pos.compare;
  destruct (Z.compare_spec ea eb), (Z.compare_spec eb ea);
    simpl; try congruence; try lia; subst;
  destruct (Pos.compare_spec ma mb), (Pos.compare_spec mb ma);
    simpl; try congruence; try lia.
Qed.

Lemma ltb_leb_trans (a b c : float) :
  (a <? b)%float = true -> (b <=? c)%float = true -> (a <? c)%float = true.
Proof. rewrite !ltb_spec, leb_spec. apply SFltb_leb_trans. Qed.

Lemma leb_ltb_trans (a b c : float) :
  (a <=? b)%float = true -> (b <? c)%float = true -> (a <? c)%float = true.
Proof. rewrite !ltb_spec, leb_spec. apply SFleb_ltb_trans. Qed.

Lemma ltb_asym (a b : float) :
  (a <? b)%float = true -> (b <? a)%float = false.
Proof. rewrite !ltb_spec. apply SFltb_asym. Qed.

Section Stacked.
Variable layout : Layout.
Variable registry : list Node.
Hypothesis Hstacked : stacked layout registry.

(** A rectangle before the one that contains the midpoint lies wholly above
    the midpoint. *)
Lemma stacked_before (i k : nat) (n nk : Node) (offset : float) :
  registry !! i = Some n -> registry !! k = Some nk -> i < k ->
  inside offset (layout nk) ->
  (rect_y (layout n) <? offset)%float = true /\
  (offset <? rect_y (layout n) + rect_height (layout n))%float = false.
Proof.
  intros Hi Hk Hlt [Habove _]. unfold above in Habove.
  destruct Hstacked as [Hheight Horder].
  pose proof (Hheight i n Hi) as Htop.
  pose proof (Horder i k n nk Hlt Hi Hk) as Hbottom.
  assert (Hpast : (rect_y (layout n) + rect_height (layout n) <? offset)%float
                  = true) by (eapply leb_ltb_trans; eassumption).
  split.
  - eapply leb_ltb_trans; eassumption.
  - by apply ltb_asym.
Qed.

(** A rectangle after the one that contains the midpoint lies wholly below
    the midpoint. *)
Lemma stacked_after (i k : nat) (n nk : Node) (offset : float) :
  registry !! i = Some n -> registry !! k = Some nk -> k < i ->
  inside offset (layout nk) ->
  (rect_y (layout n) <? offset)%float = false /\
  (offset <? rect_y (layout n) + rect_height (layout n))%float = true.
Proof.
  intros Hi Hk Hlt [_ Hbelow]. unfold below in Hbelow.
  destruct Hstacked as [Hheight Horder].
  pose proof (Hheight i n Hi) as Htop.
  pose proof (Horder k i nk n Hlt Hk Hi) as Hbottom.
  assert (Hshort : (offset <? rect_y (layout n))%float = true)
    by (eapply ltb_leb_trans; eassumption).
  split.
  - by apply ltb_asym.
  - eapply ltb_leb_trans; eassumption.
Qed.

(** At most one rectangle of a stacked page contains the midpoint. *)
Lemma stacked_inside_unique (i k : nat) (n nk : Node) (offset : float) :
  registry !! i = Some n -> registry !! k = Some nk ->
  inside offset (layout n) -> inside offset (layout nk) -> i = k.
Proof.
  intros Hi Hk Hin Hink.
  destruct (Nat.lt_trichotomy i k) as [Hlt|[Heq|Hgt]]; [|done|].
  - destruct (stacked_before i k n nk offset Hi Hk Hlt Hink) as [_ Hnot].
    destruct Hin as [_ Hbelow]. unfold below in Hbelow. congruence.
  - destruct (stacked_after i k n nk offset Hi Hk Hgt Hink) as [Hnot _].
    destruct Hin as [Habove _]. unfold above in Habove. congruence.
Qed.

Lemma stacked_shift_of (offset : float) (draggedRect : Rect) (d : Z)
    (i k : nat) (n nk : Node) :
  registry !! k = Some nk -> inside offset (layout nk) ->
  registry !! i = Some n -> d <> Z.of_nat i ->
  shift_of offset draggedRect (Some d) i (layout n)
  = if decide (d < Z.of_nat i <= Z.of_nat k)%Z
    then translate_up (rect_height draggedRect)
    else if decide (Z.of_nat k <= Z.of_nat i < d)%Z
         then translate_down (rect_height draggedRect)
         else translate_zero.
Proof.
  intros Hk Hink Hi Hne.
  assert (Hfacts :
    (i < k -> (rect_y (layout n) <? offset)%float = true /\
              (offset <? rect_y (layout n) + rect_height (layout n))%float
              = false) /\
    (k < i -> (rect_y (layout n) <? offset)%float = false /\
              (offset <? rect_y (layout n) + rect_height (layout n))%float
              = true) /\
    (i = k -> (rect_y (layout n) <? offset)%float = true /\
              (offset <? rect_y (layout n) + rect_height (layout n))%float
              = true)).
  { split; [|split].
    - intros Hlt. exact (stacked_before i k n nk offset Hi Hk Hlt Hink).
    - intros Hlt. exact (stacked_after i k n nk offset Hi Hk Hlt Hink).
    - intros ->. rewrite Hi in Hk. injection Hk as ->. exact Hink. }
  destruct Hfacts as (Hbefore & Hafter & Hat).
  unfold shift_of, dragged_below, dragged_above.
  destruct (Nat.lt_trichotomy i k) as [Hlt|[Heq|Hgt]].
  - destruct (Hbefore Hlt) as [-> ->]. simpl.
    destruct (Z.ltb_spec d (Z.of_nat i)).
    + by rewrite decide_True by lia.
    + rewrite decide_False by lia. by rewrite decide_False by lia.
  - destruct (Hat Heq) as [-> ->]. simpl.
    destruct (Z.ltb_spec d (Z.of_nat i)).
    + by rewrite decide_True by lia.
    + rewrite decide_False by lia.
      destruct (Z.ltb_spec (Z.of_nat i) d).
      * by rewrite decide_True by lia.
      * lia.
  - destruct (Hafter Hgt) as [-> ->]. simpl.
    rewrite decide_False by lia.
    destruct (Z.ltb_spec (Z.of_nat i) d).
    + by rewrite decide_True by lia.
    + by rewrite decide_False by lia.
Qed.

Lemma stacked_target (fresh : Clone) (state : State) (offset : float)
    (draggedRect : Rect) (dragged : option Z)
    (styles : gmap Node Transform) (k : nat) (nk : Node) :
  registry !! k = Some nk -> inside offset (layout nk) ->
  draggedElementNewIndex
    (foldl (reducer layout fresh) state
       (snd (forEach (drag_node layout offset draggedRect dragged)
               registry (styles, []))))
  = Some (Z.of_nat k).
Proof.
  intros Hk Hink.
  destruct (forEach_live_target layout offset draggedRect dragged fresh
              state registry styles)
    as [(i & n & Hi & Hin & _ & ->)|[Hnone _]].
  - by rewrite (stacked_inside_unique i k n nk offset).
  - by destruct (Hnone k nk Hk).
Qed.
End Stacked.

(** On a page of stacked items with the midpoint inside the rectangle at
    index [k], the visit of an index [i] other than the dragged index [d]
    shifts the item up when [d < i <= k], down when [k <= i < d], and
    resets it otherwise: the items between the origin and the target make
    room, the others rest. *)
Theorem stacked_items_make_room (layout : Layout) (state : State)
    (dom : Dom) (el : DraggedElement) (d : Z) (i k : nat) (n nk : Node) :
  stacked layout (nodes state) ->
  draggedElement state = Some el ->
  nodes state !! k = Some nk ->
  inside (midpoint (currentY state) (rect el)) (layout nk) ->
  nodes state !! i = Some n ->
  d <> Z.of_nat i ->
  fst (forEach (drag_node layout (midpoint (currentY state) (rect el))
                  (rect el) (Some d))
         (take (S i) (nodes state)) (transform dom, [])) !! n
  = Some (if decide (d < Z.of_nat i <= Z.of_nat k)%Z
          then translate_up (rect_height (rect el))
          else if decide (Z.of_nat k <= Z.of_nat i < d)%Z
               then translate_down (rect_height (rect el))
               else translate_zero).
Proof.
  intros Hstacked Hel Hk Hink Hi Hne.
  rewrite forEach_assigns by (done || congruence).
  f_equal. by eapply stacked_shift_of.
Qed.

(** On a page of stacked items the effect sets the live target index to the
    index of the one rectangle that contains the midpoint. *)
Theorem stacked_live_target (layout : Layout) (fresh : Clone)
    (state : State) (dom : Dom) (dup : Clone) (el : DraggedElement)
    (k : nat) (nk : Node) :
  stacked layout (nodes state) ->
  duplicateNode state = Some dup ->
  draggedElement state = Some el ->
  nodes state !! k = Some nk ->
  inside (midpoint (currentY state) (rect el)) (layout nk) ->
  exists dom' queue,
    drag_effect layout state dom = Some (dom', queue) /\
    draggedElementNewIndex (foldl (reducer layout fresh) state queue)
    = Some (Z.of_nat k).
Proof.
  intros Hstacked Hdup Hel Hk Hink. eexists _, _. split.
  - by apply (drag_effect_runs layout state dom dup el).
  - simpl. by eapply stacked_target.
Qed.

(** ** A whole gesture *)

Lemma lookup_foldr_delete (styles : gmap Node Transform)
    (registry : list Node) (n : Node) :
  n ∈ registry -> foldr delete styles registry !! n = None.
Proof.
  induction registry as [|m registry IH]; intros Hn; [by inversion Hn|].
  simpl. destruct (decide (m = n)) as [->|Hne].
  - apply lookup_delete_eq.
  - rewrite lookup_delete_ne by done. apply IH.
    by apply elem_of_cons in Hn as [->|Hn].
Qed.

Section Gesture.
Context {A : Type}.
Variable undefined : A.
Implicit Types (w : World A) (layout : Layout).

(** A press on a registered node of an idle tree. *)
Lemma step_press_idle layout w (target : Node) (y : float) :
  consistent w -> idle (w_state w) -> target ∈ nodes (w_state w) ->
  let next :=
    reducer layout (w_clones w) (w_state w) (DRAG_START y target) in
  step undefined layout w (PressStart target y)
  = Some {| w_state := next;
            w_handlers := next;
            w_items := w_items w;
            w_dom :=
              {| transform := transform (w_dom w);
                 webkitTransition :=
                   webkitTransition (w_dom w)
                   ∪ list_to_set (nodes (w_state w));
                 visibility := <[target := hidden]> (visibility (w_dom w));
                 body := appendChild (w_clones w) (body (w_dom w));
                 duplicateBox :=
                   <[w_clones w := layout target]> (duplicateBox (w_dom w));
                 duplicateTransform := duplicateTransform (w_dom w) |};
            w_clones := S (w_clones w) |}.
Proof.
  intros Hw Hidle Hin next. unfold step, dragStart.
  rewrite (handlers_nodes w Hw).
  rewrite (proj2 (some_registered target _) Hin). cbn [handle].
  unfold dispatch. fold next. unfold run_effects.
  assert (Hc : isDragging_changed (w_state w) next = true).
  { unfold isDragging_changed. rewrite bool_decide_eq_false_2; [done|].
    simpl. intros Hd. unfold idle in Hidle. by rewrite Hd in Hidle. }
  rewrite Hc, orb_true_r. rewrite currentY_unchanged by done.
  rewrite commit_not_ended by done. done.
Qed.

(** A move while the session is open. *)
Lemma step_move_session layout w (y y0 : float) (dup : Clone)
    (el : DraggedElement) :
  in_session y0 dup el w ->
  exists w',
    step undefined layout w (PressMove y) = Some w' /\
    in_session y0 dup el w' /\
    currentY (w_state w') = Some (y - y0)%float /\
    w_items w' = w_items w /\
    nodes (w_state w') = nodes (w_state w) /\
    draggedElementIndex (w_state w') = draggedElementIndex (w_state w) /\
    w_clones w' = w_clones w.
Proof.
  intros [Hopen Hh Hy0 Hel Hdup Hbody].
  unfold step, drag. rewrite Hh, Hy0. cbn [truthy handle to_num].
  unfold dispatch.
  set (next := reducer layout (w_clones w) (w_state w)
                 (SET_CURRENT_Y (y - y0)%float)).
  unfold run_effects.
  rewrite nodes_unchanged, isDragging_unchanged by done.
  cbn [orb w_dom w_items w_handlers w_clones mbind option_bind].
  destruct (currentY_changed (w_state w) next).
  - rewrite (drag_effect_runs layout next (w_dom w) dup el) by done.
    cbn [mbind option_bind].
    set (result := forEach _ _ _).
    assert (Hq : Forall (fun a => exists k, a = SET_NEW_INDEX k) (snd result))
      by (unfold result, forEach; by apply forEach_queue).
    destruct (reduce_queue_frame layout (w_clones w) (snd result) next Hq)
      as (Hn & Hd & _ & Hy & Hel' & Hidx & Hdup' & _).
    eexists. split; [done|]. simpl.
    split; [|by rewrite Hn, Hy, Hidx].
    split; simpl; try done.
    + by rewrite Hd.
    + by rewrite Hel'.
    + by rewrite Hdup'.
  - cbn [mbind option_bind foldl].
    eexists. split; [done|]. simpl. split; [|done]. by split.
Qed.

Lemma run_moves_session w (positions : list (Layout * float)) (y0 : float)
    (dup : Clone) (el : DraggedElement) :
  in_session y0 dup el w ->
  exists w',
    run undefined w (moves positions) = Some w' /\
    in_session y0 dup el w' /\
    w_items w' = w_items w /\
    nodes (w_state w') = nodes (w_state w) /\
    draggedElementIndex (w_state w') = draggedElementIndex (w_state w) /\
    w_clones w' = w_clones w.
Proof.
  revert w. induction positions as [|[layout y] positions IH]; intros w Hw.
  - by exists w.
  - destruct (step_move_session layout w y y0 dup el Hw)
      as (w1 & Hstep & Hw1 & _ & Hitems & Hnodes & Hidx & Hclones).
    destruct (IH w1 Hw1) as (w' & Hrun & Hw' & Hitems' & Hnodes' & Hidx' & ?).
    exists w'. unfold moves in *. cbn [fmap list_fmap run fst snd].
    rewrite Hstep. split; [done|]. split; [done|].
    repeat split; congruence.
Qed.

(** A release while the session is open. *)
Lemma step_release_session layout w (y0 : float) (dup : Clone)
    (el : DraggedElement) :
  in_session y0 dup el w ->
  let next := reducer layout (w_clones w) (w_state w) DRAG_END in
  step undefined layout w PressEnd
  = Some {| w_state := next;
            w_handlers := next;
            w_items := commit undefined (ctx_of next) (w_items w);
            w_dom :=
              {| transform :=
                   foldr delete (transform (w_dom w)) (nodes (w_state w));
                 webkitTransition :=
                   webkitTransition (w_dom w)
                   ∖ list_to_set (nodes (w_state w));
                 visibility := <[node el := visible]> (visibility (w_dom w));
                 body := filter (fun x => x ≠ dup) (body (w_dom w));
                 duplicateBox := duplicateBox (w_dom w);
                 duplicateTransform := duplicateTransform (w_dom w) |};
            w_clones := w_clones w |}.
Proof.
  intros [Hopen Hh Hy0 Hel Hdup Hbody] next.
  unfold step, dragEnd. cbn [handle]. unfold dispatch. fold next.
  unfold run_effects, isDragging_changed. simpl.
  rewrite Hopen, bool_decide_eq_false_2 by done. simpl.
  rewrite currentY_unchanged by done.
  unfold dragging_effect, removeChild. simpl. rewrite Hel, Hdup.
  rewrite bool_decide_eq_true_2 by done. cbn [mbind option_bind].
  by rewrite orb_true_r.
Qed.

Lemma press_opens_session layout w (target : Node) (y : float) :
  consistent w -> idle (w_state w) -> target ∈ nodes (w_state w) ->
  exists w',
    step undefined layout w (PressStart target y) = Some w' /\
    in_session y (w_clones w) {| node := target; rect := layout target |} w' /\
    w_items w' = w_items w /\
    nodes (w_state w') = nodes (w_state w).
Proof.
  intros Hw Hidle Hin. eexists. split; [by apply step_press_idle|].
  simpl. split; [|done]. split; simpl; try done.
  unfold appendChild. apply elem_of_app. right. apply list_elem_of_here.
Qed.

(** A press on a registered node of an idle tree opens a session: the node
    is hidden, its duplicate is attached to the body, every registered node
    gets the transition, and the session records the press position, the
    rectangle of the node and its first position in the registry.  The
    transforms and the items are untouched. *)
Theorem press_starts_drag (initialItems : list A) layout w (target : Node)
    (y : float) :
  reachable undefined initialItems w ->
  idle (w_state w) ->
  target ∈ nodes (w_state w) ->
  exists w' (i : nat),
    step undefined layout w (PressStart target y) = Some w' /\
    isDragging (w_state w') = Some true /\
    initialY (w_state w') = Some y /\
    draggedElement (w_state w')
    = Some {| node := target; rect := layout target |} /\
    draggedElementIndex (w_state w') = Some (Z.of_nat i) /\
    nodes (w_state w) !! i = Some target /\
    visibility (w_dom w') !! target = Some hidden /\
    w_clones w ∈ body (w_dom w') /\
    (forall n, n ∈ nodes (w_state w) -> n ∈ webkitTransition (w_dom w')) /\
    transform (w_dom w') = transform (w_dom w) /\
    w_items w' = w_items w.
Proof.
  intros Hreach Hidle Hin. apply reachable_consistent in Hreach as Hw.
  destruct (findIndex_registered target _ Hin) as (i & Hi & Hlook & _).
  eexists _, i. split; [by apply step_press_idle|]. simpl. rewrite Hi.
  repeat split; try done.
  - apply lookup_insert_eq.
  - unfold appendChild. apply elem_of_app. right. apply list_elem_of_here.
  - intros n Hn. apply elem_of_union. right. by apply elem_of_list_to_set.
Qed.

(** A gesture on an idle tree (a press on a registered node, any moves, a
    release) runs without an exception and leaves the tree idle and the
    document clean: no registered node keeps a transform or a transition,
    the pressed node is visible, the duplicate is no longer a child of the
    body.  The items are what the commit makes of the items before the
    gesture with the indices of the final state. *)
Theorem gesture_completes (initialItems : list A) w (target : Node)
    (press : Layout * float) (positions : list (Layout * float))
    (release : Layout) :
  reachable undefined initialItems w ->
  idle (w_state w) ->
  target ∈ nodes (w_state w) ->
  exists w',
    run undefined w (gesture target press positions release) = Some w' /\
    isDragging (w_state w') = Some false /\
    nodes (w_state w') = nodes (w_state w) /\
    (forall n, n ∈ nodes (w_state w) ->
       transform (w_dom w') !! n = None /\
       n ∉ webkitTransition (w_dom w')) /\
    visibility (w_dom w') !! target = Some visible /\
    (w_clones w ∉ body (w_dom w')) /\
    w_items w' = commit undefined (ctx_of (w_state w')) (w_items w).
Proof.
  intros Hreach Hidle Hin. apply reachable_consistent in Hreach as Hw.
  destruct press as [layout0 y0].
  destruct (press_opens_session layout0 w target y0 Hw Hidle Hin)
    as (w1 & Hpress & Hw1 & Hitems1 & Hnodes1).
  destruct (run_moves_session w1 positions _ _ _ Hw1)
    as (w2 & Hmoves & Hw2 & Hitems2 & Hnodes2 & _ & _).
  eexists. split.
  - unfold gesture. cbn [run fst snd]. rewrite Hpress, run_app, Hmoves.
    cbn [mbind option_bind run].
    by rewrite (step_release_session release w2 _ _ _ Hw2).
  - simpl. rewrite Hnodes2, Hnodes1, Hitems2, Hitems1.
    repeat split; try done.
    + by apply lookup_foldr_delete.
    + intros Hn. apply elem_of_difference in Hn as [_ Hn]. apply Hn.
      by apply elem_of_list_to_set.
    + apply lookup_insert_eq.
    + intros Hdup. by apply list_elem_of_filter in Hdup as [Hne _].
Qed.

(** During a gesture the displacement in the state is the last pointer
    position minus the press position, whatever moves came before. *)
Theorem displacement_is_measured_from_press (initialItems : list A) w
    (target : Node) (press : Layout * float) (positions : list (Layout * float))
    (last : Layout * float) :
  reachable undefined initialItems w ->
  idle (w_state w) ->
  target ∈ nodes (w_state w) ->
  exists w',
    run undefined w
      ((fst press, PressStart target (snd press))
         :: moves (positions ++ [last])) = Some w' /\
    currentY (w_state w') = Some (snd last - snd press)%float /\
    isDragging (w_state w') = Some true /\
    w_items w' = w_items w.
Proof.
  intros Hreach Hidle Hin. apply reachable_consistent in Hreach as Hw.
  destruct press as [layout0 y0]. destruct last as [layout1 y1].
  destruct (press_opens_session layout0 w target y0 Hw Hidle Hin)
    as (w1 & Hpress & Hw1 & Hitems1 & _).
  destruct (run_moves_session w1 positions _ _ _ Hw1)
    as (w2 & Hmoves & Hw2 & Hitems2 & _).
  destruct (step_move_session layout1 w2 y1 _ _ _ Hw2)
    as (w3 & Hlast & Hw3 & Hy & Hitems3 & _).
  exists w3. split.
  - cbn [run fst snd]. rewrite Hpress. unfold moves.
    rewrite fmap_app, run_app. fold (moves positions). rewrite Hmoves.
    cbn [mbind option_bind fmap list_fmap run fst snd]. by rewrite Hlast.
  - split; [done|]. split; [by destruct Hw3 | congruence].
Qed.

(** When the registry is not longer than the list of items, a release
    never loses, duplicates or adds an item, whatever the session
    recorded. *)
Theorem release_permutes_items (initialItems : list A) layout w w' :
  reachable undefined initialItems w ->
  length (nodes (w_state w)) <= length (w_items w) ->
  step undefined layout w PressEnd = Some w' ->
  w_items w' ≡ₚ w_items w /\ length (w_items w') = length (w_items w).
Proof.
  intros Hreach Hlen Hstep.
  destruct (reachable_session_data _ _ _ Hreach) as [Hanch Htarget].
  cbn [step handle dragEnd] in Hstep. unfold dispatch in Hstep.
  apply run_effects_items in Hstep as ->. cbn [w_items].
  destruct (isDragging_changed _ _); [|done].
  unfold commit, useSortable_effect. simpl.
  destruct (negb (bool_decide (draggedElementIndex (w_state w)
                               = draggedElementNewIndex (w_state w))))
    eqn:Hdiff; [|done].
  simpl. apply negb_true_iff, bool_decide_eq_false in Hdiff.
  assert (Hinside : is_Some (w_items w !! splice_start (length (w_items w))
                                          (draggedElementIndex (w_state w)))).
  { apply lookup_lt_is_Some_2.
    destruct (draggedElementIndex (w_state w)) as [d|] eqn:Hd.
    - destruct (Hanch d Hd) as (el & i & _ & -> & Hi & _).
      apply lookup_lt_Some in Hi.
      rewrite splice_start_in_range by lia. lia.
    - simpl. destruct (draggedElementNewIndex (w_state w)) as [k|] eqn:Hk;
        [|done].
      specialize (Htarget k Hk). lia. }
  destruct Hinside as [x Hx].
  rewrite (move_item_inside _ _ _ _ x Hx).
  pose proof (lookup_lt_Some _ _ _ Hx) as Hlt.
  split.
  - rewrite insert_middle_perm. symmetry. by apply delete_Permutation.
  - rewrite insert_middle_length, length_delete by eauto. lia.
Qed.
End Gesture.

(** ** The further properties at work on the demo list *)

Lemma demo_registry_stacked : stacked rows [0; 1; 2; 3; 4].
Proof.
  split.
  - intros i n Hi. apply demo_registry_identity in Hi as [-> Hi].
    do 5 (destruct i as [|i]; [vm_compute; reflexivity|]). lia.
  - intros i j n m Hlt Hi Hj.
    apply demo_registry_identity in Hi as [-> Hi].
    apply demo_registry_identity in Hj as [-> Hj].
    do 5 (destruct i as [|i];
          [do 5 (destruct j as [|j];
                 [first [vm_compute; reflexivity | lia]|]); lia|]).
    lia.
Qed.

Lemma moved_world_reachable : reachable Lundefined ABCDE moved_world.
Proof.
  exists (on_rows ((Mount <$> [0; 1; 2; 3; 4])
                   ++ [PressStart 0 10; PressMove 50])).
  vm_compute. reflexivity.
Defined.

Lemma released_world_reachable : reachable Lundefined ABCDE released_world.
Proof.
  exists (on_rows ((Mount <$> [0; 1; 2; 3; 4])
                   ++ [PressStart 0 10; PressMove 50; PressEnd])).
  vm_compute. reflexivity.
Defined.

Lemma move_item_back_on_ABCDE :
  move_item Lundefined (Some 3%Z) (Some 1%Z)
    (move_item Lundefined (Some 1%Z) (Some 3%Z) ABCDE)
  = ABCDE.
Proof. apply (move_item_back Lundefined ABCDE 1 3); simpl; lia. Defined.

Lemma move_item_any_indices_on_ABCDE :
  let items' := move_item Lundefined (Some (-2)%Z) None ABCDE in
  length items' = length ABCDE /\
  items' ≡ₚ ABCDE /\
  items' !! 0 = Some LD /\
  delete 0 items' = delete 3 ABCDE.
Proof.
  apply (move_item_any_indices Lundefined ABCDE (Some (-2)%Z) None LD).
  reflexivity.
Defined.

Lemma move_item_origin_outside_on_ABCDE :
  move_item Lundefined (Some 7%Z) (Some 1%Z) ABCDE
  = take 1 ABCDE ++ Lundefined :: drop 1 ABCDE /\
  length (move_item Lundefined (Some 7%Z) (Some 1%Z) ABCDE)
  = S (length ABCDE).
Proof.
  apply (move_item_origin_outside Lundefined ABCDE (Some 7%Z) (Some 1%Z)).
  reflexivity.
Defined.

Lemma events_frame_on_press :
  (PressStart 0 10 <> PressEnd -> w_items dragging_world = w_items mounted_world) /\
  ((forall n, PressStart 0 10 <> Mount n) ->
   nodes (w_state dragging_world) = nodes (w_state mounted_world)) /\
  (forall n, PressStart 0 10 = Mount n ->
   nodes (w_state dragging_world) = nodes (w_state mounted_world) ++ [n]).
Proof.
  apply (events_frame Lundefined rows mounted_world dragging_world
           (PressStart 0 10)).
  vm_compute. reflexivity.
Defined.

Lemma origin_index_on_dragging_world :
  exists (el : DraggedElement) (i : nat),
    draggedElement (w_state dragging_world) = Some el /\
    0%Z = Z.of_nat i /\
    nodes (w_state dragging_world) !! i = Some (node el) /\
    forall j, j < i -> nodes (w_state dragging_world) !! j <> Some (node el).
Proof.
  apply (origin_index_is_position_of_dragged Lundefined ABCDE dragging_world
           0 dragging_world_reachable).
  vm_compute. reflexivity.
Defined.

Lemma live_target_on_released_world :
  (0 <= 2 < Z.of_nat (length (nodes (w_state released_world))))%Z.
Proof.
  apply (live_target_is_position_of_registry Lundefined ABCDE released_world
           2 released_world_reachable).
  vm_compute. reflexivity.
Defined.

Lemma handlers_on_dragging_world :
  nodes (w_handlers dragging_world) = nodes (w_state dragging_world) /\
  isDragging (w_handlers dragging_world)
  = isDragging (w_state dragging_world) /\
  (isDragging (w_state dragging_world) = None ->
   draggedElement (w_state dragging_world) = None /\
   draggedElementIndex (w_state dragging_world) = None /\
   draggedElementNewIndex (w_state dragging_world) = None /\
   duplicateNode (w_state dragging_world) = None).
Proof.
  apply (handlers_see_current_state Lundefined ABCDE dragging_world
           dragging_world_reachable).
Defined.

Lemma drag_effect_frame_held_A :
  exists dom' queue,
    drag_effect rows held_A emptyDom = Some (dom', queue) /\
    body dom' = body emptyDom /\
    duplicateTransform dom' !! 0 = Some (currentY held_A) /\
    transform dom' !! 0 = transform emptyDom !! 0 /\
    transform dom' !! 9 = transform emptyDom !! 9.
Proof.
  pose proof (drag_effect_runs rows held_A emptyDom 0
                {| node := 0; rect := rows 0 |} eq_refl eq_refl) as Hrun.
  simpl in Hrun. eexists _, _. split; [exact Hrun|].
  destruct (drag_effect_frame rows held_A emptyDom _ _ Hrun)
    as (_ & _ & Hbody & _ & Hdup & _ & Hout & Hdragged).
  split; [exact Hbody|]. split; [by apply Hdup|]. split.
  - apply (Hdragged 0 0); [reflexivity | reflexivity |].
    intros j Hj. apply demo_registry_identity in Hj as [? ?]. done.
  - apply Hout. intros Hin. apply list_elem_of_lookup in Hin as [j Hj].
    apply demo_registry_identity in Hj as [? ?]. lia.
Defined.

Lemma stacked_items_make_room_held_A :
  fst (forEach (drag_node rows (midpoint (currentY held_A) (rows 0))
                  (rows 0) (Some 0%Z))
         (take 2 (nodes held_A)) (transform emptyDom, [])) !! 1
  = Some (translate_up 20).
Proof.
  apply (stacked_items_make_room rows held_A emptyDom
           {| node := 0; rect := rows 0 |} 0 1 2 1 2);
    first [exact demo_registry_stacked | reflexivity | discriminate
          | vm_compute; split; reflexivity].
Defined.

Lemma stacked_live_target_held_A :
  exists dom' queue,
    drag_effect rows held_A emptyDom = Some (dom', queue) /\
    draggedElementNewIndex (foldl (reducer rows 0) held_A queue)
    = Some 2%Z.
Proof.
  apply (stacked_live_target rows 0 held_A emptyDom 0
           {| node := 0; rect := rows 0 |} 2 2);
    first [exact demo_registry_stacked | reflexivity
          | vm_compute; split; reflexivity].
Defined.

Lemma mounted_world_idle : idle (w_state mounted_world).
Proof. vm_compute. reflexivity. Qed.

Lemma mounted_world_registers_0 : 0 ∈ nodes (w_state mounted_world).
Proof. vm_compute. apply list_elem_of_here. Qed.

Lemma press_starts_drag_on_mounted_world :
  exists w' (i : nat),
    step Lundefined rows mounted_world (PressStart 0 10) = Some w' /\
    isDragging (w_state w') = Some true /\
    draggedElementIndex (w_state w') = Some (Z.of_nat i) /\
    visibility (w_dom w') !! 0 = Some hidden /\
    w_items w' = w_items mounted_world.
Proof.
  destruct (press_starts_drag Lundefined ABCDE rows mounted_world 0 10
              mounted_world_reachable mounted_world_idle
              mounted_world_registers_0)
    as (w' & i & Hstep & Hd & _ & _ & Hidx & _ & Hvis & _ & _ & _ & Hitems).
  exists w', i. repeat split; assumption.
Defined.

Lemma gesture_completes_on_mounted_world :
  exists w',
    run Lundefined mounted_world
      (gesture 0 (rows, 10%float) [(rows, 30%float); (rows, 50%float)] rows) = Some w' /\
    isDragging (w_state w') = Some false /\
    visibility (w_dom w') !! 0 = Some visible /\
    w_items w' = commit Lundefined (ctx_of (w_state w')) ABCDE.
Proof.
  destruct (gesture_completes Lundefined ABCDE mounted_world 0 (rows, 10%float)
              [(rows, 30%float); (rows, 50%float)] rows
              mounted_world_reachable mounted_world_idle
              mounted_world_registers_0)
    as (w' & Hrun & Hd & _ & _ & Hvis & _ & Hitems).
  exists w'. repeat split; assumption.
Defined.

Lemma displacement_on_mounted_world :
  exists w',
    run Lundefined mounted_world
      ((rows, PressStart 0 10) :: moves ([(rows, 30%float)] ++ [(rows, 50%float)]))
    = Some w' /\
    currentY (w_state w') = Some (50 - 10)%float /\
    isDragging (w_state w') = Some true /\
    w_items w' = w_items mounted_world.
Proof.
  apply (displacement_is_measured_from_press Lundefined ABCDE mounted_world
           0 (rows, 10%float) [(rows, 30%float)] (rows, 50%float)
           mounted_world_reachable mounted_world_idle
           mounted_world_registers_0).
Defined.

Lemma release_permutes_items_of_moved_world :
  w_items released_world ≡ₚ w_items moved_world /\
  length (w_items released_world) = length (w_items moved_world).
Proof.
  apply (release_permutes_items Lundefined ABCDE rows moved_world
           released_world moved_world_reachable).
  - vm_compute. lia.
  - vm_compute. reflexivity.
Defined.
